(** * A shallow embedding of the brainfuck virtual machine of [main.cpp]

    The development follows the source file top to bottom: the operation
    variant and the operator table, the machine status record, [next_op],
    [run_vm] with its two nested [while] loops, and [main].

    Modelling conventions.
    - [int] fields hold a [Z]. Signed overflow, indexing a [std::vector]
      out of range and [top]/[pop] on an empty [std::stack] are undefined
      behaviour in C++; the model stops with [Undefined] there.
    - a tape cell ([char]) is modelled by its 8-bit pattern, a [Z] in
      [0, 256): the tests [!= 0], the byte written by [printf("%c")] and the
      byte stored from [getchar()] depend on the pattern only, so the model
      does not depend on the signedness of [char].
    - [std::map<int, char>] is a [gmap Z Z]; [operator[]] inserts a zero
      cell when the key is absent ([tape_ref]).
    - loops may run forever, so [run_vm] takes fuel and stops with
      [OutOfFuel] when it runs out. *)

From Stdlib Require Import ZArith Lia Ascii String.
From stdpp Require Import base option list gmap strings.

Local Open Scope Z_scope.

(** ** Results of a run *)

Inductive result (A : Type) : Type :=
| Done (a : A)
| OutOfFuel
| Undefined.
Arguments Done {A} a.
Arguments OutOfFuel {A}.
Arguments Undefined {A}.

#[global] Instance result_ret : MRet result := fun A a => Done a.
#[global] Instance result_bind : MBind result := fun A B f m =>
  match m with
  | Done a => f a
  | OutOfFuel => OutOfFuel
  | Undefined => Undefined
  end.

(** ** Machine integers and characters *)

Definition INT_MIN : Z := -2147483648.
Definition INT_MAX : Z := 2147483647.

Definition in_int (z : Z) : Prop := INT_MIN <= z <= INT_MAX.

(** The value of an [int] expression: defined when it is representable. *)
Definition int_of (z : Z) : result Z :=
  if (INT_MIN <=? z) && (z <=? INT_MAX) then Done z else Undefined.

(** Conversion of an [int] to a [char], as its 8-bit pattern. *)
Definition to_char (z : Z) : Z := z mod 256.

Definition char_code (c : ascii) : Z := Z.of_N (N_of_ascii c).

(** ** brainfuck ops *)

Inductive brainfuck_op : Type :=
| increment_value_op   (* + *)
| decrement_value_op   (* - *)
| increment_ptr_op     (* > *)
| decrement_ptr_op     (* < *)
| print_op             (* . *)
| read_op              (* , *)
| loop_start_op        (* [ *)
| loop_end_op          (* ] *)
| monostate.

#[global] Instance brainfuck_op_eq_dec : EqDecision brainfuck_op.
Proof. solve_decision. Defined.

Definition bf_op_table : list (ascii * brainfuck_op) :=
  [ ("+"%char, increment_value_op);
    ("-"%char, decrement_value_op);
    (">"%char, increment_ptr_op);
    ("<"%char, decrement_ptr_op);
    ("."%char, print_op);
    (","%char, read_op);
    ("["%char, loop_start_op);
    ("]"%char, loop_end_op) ].

(** a map from char to brainfuck_op *)
Definition bf_op_map : gmap ascii brainfuck_op := list_to_map bf_op_table.

(** ** brainfuck vm status *)

Record brainfuck_vm_status : Type := mk_status {
  tape : gmap Z Z;
  tape_ptr : Z;
  instruction : list ascii;
  instruction_ptr_current : Z;
  instruction_loop_ptr : list Z;   (* the stack, top first *)
  jump_loop : Z
}.

(** The default member initialisers. *)
Definition init_status : brainfuck_vm_status :=
  mk_status ∅ 0 [] (-1) [] 0.

Definition set_tape (t : gmap Z Z) (s : brainfuck_vm_status) :=
  mk_status t (tape_ptr s) (instruction s) (instruction_ptr_current s)
            (instruction_loop_ptr s) (jump_loop s).
Definition set_tape_ptr (p : Z) (s : brainfuck_vm_status) :=
  mk_status (tape s) p (instruction s) (instruction_ptr_current s)
            (instruction_loop_ptr s) (jump_loop s).
Definition set_instruction (l : list ascii) (s : brainfuck_vm_status) :=
  mk_status (tape s) (tape_ptr s) l (instruction_ptr_current s)
            (instruction_loop_ptr s) (jump_loop s).
Definition set_instruction_ptr_current (i : Z) (s : brainfuck_vm_status) :=
  mk_status (tape s) (tape_ptr s) (instruction s) i
            (instruction_loop_ptr s) (jump_loop s).
Definition set_instruction_loop_ptr (k : list Z) (s : brainfuck_vm_status) :=
  mk_status (tape s) (tape_ptr s) (instruction s) (instruction_ptr_current s)
            k (jump_loop s).
Definition set_jump_loop (j : Z) (s : brainfuck_vm_status) :=
  mk_status (tape s) (tape_ptr s) (instruction s) (instruction_ptr_current s)
            (instruction_loop_ptr s) j.

(** [tape[p]]: the cell read, and the map after [operator[]] has inserted a
    zero cell for an absent key. *)
Definition tape_ref (t : gmap Z Z) (p : Z) : Z * gmap Z Z :=
  match t !! p with
  | Some v => (v, t)
  | None => (0, <[p := 0]> t)
  end.

(** The tape as a total mapping: an absent cell reads 0. *)
Definition cell (t : gmap Z Z) (p : Z) : Z := default 0 (t !! p).

(** [instruction[i]] *)
Definition vector_at (l : list ascii) (i : Z) : result ascii :=
  if i <? 0 then Undefined
  else match l !! Z.to_nat i with
       | Some c => Done c
       | None => Undefined
       end.

(** [top()] and [pop()] of the loop stack *)
Definition stack_top (k : list Z) : result Z :=
  match k with
  | x :: _ => Done x
  | [] => Undefined
  end.
Definition stack_pop (k : list Z) : result (list Z) :=
  match k with
  | _ :: k' => Done k'
  | [] => Undefined
  end.

(** ** The outside world

    [stdin] is shared by [std::cin >> char_op] in [main] and by [getchar()];
    [stdout] collects the bytes written by [printf]. [calls] is a ghost
    history of the invocations of [run_vm] (symbol and [via_loop] flag, oldest
    first); the program never reads it. *)

Record world : Type := mk_world {
  stdin : list ascii;
  stdout : list Z;
  calls : list (ascii * bool)
}.

Definition set_stdin (l : list ascii) (w : world) :=
  mk_world l (stdout w) (calls w).
Definition putc (b : Z) (w : world) :=
  mk_world (stdin w) (stdout w ++ [b]) (calls w).
Definition log_call (c : ascii) (via_loop : bool) (w : world) :=
  mk_world (stdin w) (stdout w) (calls w ++ [(c, via_loop)]).

(** [getchar()]: the next character, or [EOF] (that is -1). *)
Definition getchar (w : world) : Z * world :=
  match stdin w with
  | c :: rest => (char_code c, set_stdin rest w)
  | [] => (-1, w)
  end.

(** ** next brainfuck op *)

Definition next_op (s : brainfuck_vm_status) (char_op : ascii) (via_loop : bool)
  : result (brainfuck_op * brainfuck_vm_status) :=
  match bf_op_map !! char_op with
  | Some op =>
      if negb via_loop then
        let s1 := set_instruction (instruction s ++ [char_op]) s in
        i ← int_of (instruction_ptr_current s1 + 1);
        mret (op, set_instruction_ptr_current i s1)
      else mret (op, s)
  | None => mret (monostate, s)
  end.

(** ** brainfuck vm interpreter *)

Section visit.
(** The recursive call [run_vm(status, c, via_loop)]. *)
Variable run : world → brainfuck_vm_status → ascii → bool →
               result (world * brainfuck_vm_status).

(** [while (status.instruction_ptr_current < current) { ... }] *)
Fixpoint replay_body (fuel : nat) (current : Z) (w : world)
    (s : brainfuck_vm_status) : result (world * brainfuck_vm_status) :=
  match fuel with
  | O => OutOfFuel
  | S fuel' =>
      if instruction_ptr_current s <? current then
        c ← vector_at (instruction s) (instruction_ptr_current s);
        '(w1, s1) ← run w s c true;
        i ← int_of (instruction_ptr_current s1 + 1);
        replay_body fuel' current w1 (set_instruction_ptr_current i s1)
      else mret (w, s)
  end.

(** [while (status.tape[status.tape_ptr] != 0) { ... }] *)
Fixpoint loop_while (fuel : nat) (w : world) (s : brainfuck_vm_status)
    : result (world * brainfuck_vm_status) :=
  match fuel with
  | O => OutOfFuel
  | S fuel' =>
      let '(v, t) := tape_ref (tape s) (tape_ptr s) in
      let s := set_tape t s in
      if negb (v =? 0) then
        let current := instruction_ptr_current s in
        top ← stack_top (instruction_loop_ptr s);
        i ← int_of (top + 1);
        '(w1, s1) ← replay_body fuel' current w (set_instruction_ptr_current i s);
        loop_while fuel' w1 (set_instruction_ptr_current current s1)
      else mret (w, s)
  end.

(** The [std::visit] of [run_vm]: one handler per variant. *)
Definition visit (fuel : nat) (op : brainfuck_op) (w : world)
    (s : brainfuck_vm_status) : result (world * brainfuck_vm_status) :=
  match op with
  | increment_value_op =>
      if jump_loop s =? 0 then
        let '(v, t) := tape_ref (tape s) (tape_ptr s) in
        mret (w, set_tape (<[tape_ptr s := to_char (v + 1)]> t) s)
      else mret (w, s)
  | decrement_value_op =>
      if jump_loop s =? 0 then
        let '(v, t) := tape_ref (tape s) (tape_ptr s) in
        mret (w, set_tape (<[tape_ptr s := to_char (v - 1)]> t) s)
      else mret (w, s)
  | increment_ptr_op =>
      if jump_loop s =? 0 then
        p ← int_of (tape_ptr s + 1);
        mret (w, set_tape_ptr p s)
      else mret (w, s)
  | decrement_ptr_op =>
      if jump_loop s =? 0 then
        p ← int_of (tape_ptr s - 1);
        mret (w, set_tape_ptr p s)
      else mret (w, s)
  | print_op =>
      if jump_loop s =? 0 then
        let '(v, t) := tape_ref (tape s) (tape_ptr s) in
        mret (putc v w, set_tape t s)
      else mret (w, s)
  | read_op =>
      if jump_loop s =? 0 then
        let '(x, w1) := getchar w in
        let '(_, t) := tape_ref (tape s) (tape_ptr s) in
        mret (w1, set_tape (<[tape_ptr s := to_char x]> t) s)
      else mret (w, s)
  | loop_start_op =>
      let '(v, t) := tape_ref (tape s) (tape_ptr s) in
      let s := set_tape t s in
      if negb (v =? 0) && (jump_loop s =? 0) then
        mret (w, set_instruction_loop_ptr
                   (instruction_ptr_current s :: instruction_loop_ptr s) s)
      else
        j ← int_of (jump_loop s + 1);
        mret (w, set_jump_loop j s)
  | loop_end_op =>
      if negb (jump_loop s =? 0) then
        j ← int_of (jump_loop s - 1);
        mret (w, set_jump_loop j s)
      else
        let '(v, t) := tape_ref (tape s) (tape_ptr s) in
        let s := set_tape t s in
        if negb (v =? 0) then
          '(w1, s1) ← loop_while fuel w s;
          k ← stack_pop (instruction_loop_ptr s1);
          mret (w1, set_instruction_loop_ptr k s1)
        else mret (w, s)
  | monostate => mret (w, s)
  end.
End visit.

Fixpoint run_vm (fuel : nat) (w : world) (s : brainfuck_vm_status)
    (char_op : ascii) (via_loop : bool)
    : result (world * brainfuck_vm_status) :=
  match fuel with
  | O => OutOfFuel
  | S fuel' =>
      '(op, s1) ← next_op s char_op via_loop;
      visit (run_vm fuel') fuel' op (log_call char_op via_loop w) s1
  end.

(** ** main *)

(** [std::cin >> char_op] skips white space before it reads a character. *)
Definition isspace (c : ascii) : bool :=
  let n := char_code c in (n =? 32) || ((9 <=? n) && (n <=? 13)).

Fixpoint skipws (l : list ascii) : list ascii :=
  match l with
  | c :: rest => if isspace c then skipws rest else l
  | [] => []
  end.

(** [while (std::cin >> char_op) run_vm(status, char_op);] *)
Fixpoint main_loop (fuel : nat) (w : world) (s : brainfuck_vm_status)
    : result (world * brainfuck_vm_status) :=
  match fuel with
  | O => OutOfFuel
  | S fuel' =>
      match skipws (stdin w) with
      | c :: rest =>
          '(w1, s1) ← run_vm fuel' (set_stdin rest w) s c false;
          main_loop fuel' w1 s1
      | [] => mret (set_stdin [] w, s)
      end
  end.

Definition main (fuel : nat) (input : list ascii)
    : result (world * brainfuck_vm_status) :=
  main_loop fuel (mk_world input [] []) init_status.

(** The caller's side of [run_vm], without the stream: the symbols of
    [prog] are passed to [run_vm] one after the other, as [main] does with
    the characters it reads. *)
Fixpoint feed (fuel : nat) (w : world) (s : brainfuck_vm_status)
    (prog : list ascii) : result (world * brainfuck_vm_status) :=
  match prog with
  | [] => mret (w, s)
  | c :: rest =>
      '(w1, s1) ← run_vm fuel w s c false;
      feed fuel w1 s1 rest
  end.

Definition prog (p : string) : list ascii := list_ascii_of_string p.

(** A sequence of decoded operations applied in order by the visitor. *)
Fixpoint visit_seq
    (run : world → brainfuck_vm_status → ascii → bool →
           result (world * brainfuck_vm_status))
    (fuel : nat) (ops : list brainfuck_op) (w : world)
    (s : brainfuck_vm_status) : result (world * brainfuck_vm_status) :=
  match ops with
  | [] => mret (w, s)
  | op :: rest =>
      '(w1, s1) ← visit run fuel op w s;
      visit_seq run fuel rest w1 s1
  end.

(** The eight operator characters, in the order of [bf_op_map]'s initialiser. *)
Definition operator_chars : list ascii :=
  [ "+"; "-"; ">"; "<"; "."; ","; "["; "]" ]%char.

(** The net pointer movement of a sequence of operations. *)
Fixpoint ptr_net (ops : list brainfuck_op) : Z :=
  match ops with
  | [] => 0
  | increment_ptr_op :: rest => 1 + ptr_net rest
  | decrement_ptr_op :: rest => -1 + ptr_net rest
  | _ :: rest => ptr_net rest
  end.

Definition count_op (op : brainfuck_op) (ops : list brainfuck_op) : nat :=
  length (filter (λ o, o = op) ops).

Definition ptr_ops_only (ops : list brainfuck_op) : Prop :=
  Forall (λ o, o = increment_ptr_op ∨ o = decrement_ptr_op) ops.

(** What a variant does to [jump_loop] while the machine is skipping. *)
Definition skip_delta (op : brainfuck_op) : Z :=
  match op with
  | loop_start_op => 1
  | loop_end_op => -1
  | _ => 0
  end.

(** Square brackets of [body] are matched, starting [d] levels deep. *)
Fixpoint balanced_from (d : nat) (body : list ascii) : bool :=
  match body with
  | [] => Nat.eqb d 0
  | c :: rest =>
      if Ascii.eqb c "["%char then balanced_from (S d) rest
      else if Ascii.eqb c "]"%char then
             match d with
             | O => false
             | S d' => balanced_from d' rest
             end
           else balanced_from d rest
  end.

Definition balanced (body : list ascii) : bool := balanced_from 0 body.

(** The symbols of a program that reach the instruction log. *)
Definition logged (p : list ascii) : list ascii :=
  filter (λ c, c ∈ operator_chars) p.

Definition bracket_delta (c : ascii) : Z :=
  if Ascii.eqb c "["%char then 1
  else if Ascii.eqb c "]"%char then -1 else 0.

(** The variant [next_op] returns for a symbol. *)
Definition op_of (c : ascii) : brainfuck_op := default monostate (bf_op_map !! c).

Definition decode (p : list ascii) : list brainfuck_op := op_of <$> p.

(** The variants whose handler does not look at the instruction log. *)
Definition straight (op : brainfuck_op) : bool :=
  match op with
  | loop_start_op | loop_end_op => false
  | _ => true
  end.

(** The log and the instruction pointer after the fresh symbols [p]. *)
Definition log_symbols (p : list ascii) (s0 s : brainfuck_vm_status)
  : brainfuck_vm_status :=
  set_instruction_ptr_current
    (instruction_ptr_current s0 + Z.of_nat (length (logged p)))
    (set_instruction (instruction s0 ++ logged p) s).

Definition fresh_calls (p : list ascii) : list (ascii * bool) :=
  (λ c, (c, false)) <$> p.

Definition replay_calls (p : list ascii) : list (ascii * bool) :=
  (λ c, (c, true)) <$> p.

(** The world after some more calls have been recorded. *)
Definition add_calls (cs : list (ascii * bool)) (w : world) : world :=
  mk_world (stdin w) (stdout w) (calls w ++ cs).

Definition count_calls (c : ascii) (cs : list (ascii * bool)) : nat :=
  length (filter (λ e, e.1 = c) cs).

(** The calls made for [k] times [+] followed by [[-]]: the program's own
    symbols, then the replays of the body. *)
Definition countdown_calls (k : nat) : list (ascii * bool) :=
  replicate k ("+"%char, false)
  ++ [("["%char, false); ("-"%char, false); ("]"%char, false)]
  ++ replicate (k - 1) ("-"%char, true).

(** [run2] finishes wherever [run1] does, with the same result. *)
Definition run_le
    (run1 run2 : world → brainfuck_vm_status → ascii → bool →
                 result (world * brainfuck_vm_status)) : Prop :=
  ∀ w s c v x, run1 w s c v = Done x → run2 w s c v = Done x.

(** A replay call returns with the log and the instruction pointer it
    was given. *)
Definition keeps_log
    (run : world → brainfuck_vm_status → ascii → bool →
           result (world * brainfuck_vm_status)) : Prop :=
  ∀ w s c w' s',
    run w s c true = Done (w', s') →
    instruction s' = instruction s ∧
    instruction_ptr_current s' = instruction_ptr_current s.

(** Example inputs. *)
Definition C9_example_ops : list brainfuck_op :=
  [ decrement_ptr_op; decrement_ptr_op; decrement_ptr_op;
    increment_ptr_op; increment_ptr_op; increment_ptr_op;
    increment_ptr_op; increment_ptr_op; decrement_ptr_op;
    decrement_ptr_op ].

Definition C10_example_before : brainfuck_vm_status :=
  mk_status {[ 0 := 1 ]} 0 (prog "++[-") 3 [2] 0.
Definition C10_example_after : brainfuck_vm_status :=
  mk_status {[ 0 := 0 ]} 0 (prog "++[-]") 4 [] 0.

(** A call, fresh or replay, returns with [jump_loop] not negative if it
    was not negative. *)
Definition keeps_jump_nonneg
    (run : world → brainfuck_vm_status → ascii → bool →
           result (world * brainfuck_vm_status)) : Prop :=
  ∀ w s c v w' s',
    0 ≤ jump_loop s → run w s c v = Done (w', s') → 0 ≤ jump_loop s'.

(** A call only adds to the output and only takes from the front of the
    input. *)
Definition io_grows (w w' : world) : Prop :=
  stdout w `prefix_of` stdout w' ∧ stdin w' `suffix_of` stdin w.

Definition keeps_io_order
    (run : world → brainfuck_vm_status → ascii → bool →
           result (world * brainfuck_vm_status)) : Prop :=
  ∀ w s c v w' s', run w s c v = Done (w', s') → io_grows w w'.

(** An entry of the loop stack that is the log index of a loop start. *)
Definition valid_origin (l : list ascii) (k : Z) : Prop :=
  0 ≤ k ∧ l !! Z.to_nat k = Some "["%char.

Definition valid_stack (s : brainfuck_vm_status) : Prop :=
  Forall (valid_origin (instruction s)) (instruction_loop_ptr s).

(** A replay call of the symbol logged at the instruction pointer keeps the
    loop stack valid. *)
Definition keeps_valid_stack
    (run : world → brainfuck_vm_status → ascii → bool →
           result (world * brainfuck_vm_status)) : Prop :=
  ∀ w s c w' s',
    valid_stack s →
    vector_at (instruction s) (instruction_ptr_current s) = Done c →
    run w s c true = Done (w', s') →
    valid_stack s'.

(** The byte a read stores and a print writes back: the next character of
    the input, or 255 (the pattern of [EOF]) when there is none. *)
Definition next_byte (w : world) : Z :=
  match stdin w with
  | c :: _ => char_code c
  | [] => 255
  end.

(** The net change of the current cell over a sequence of operations. *)
Fixpoint val_net (ops : list brainfuck_op) : Z :=
  match ops with
  | [] => 0
  | increment_value_op :: rest => 1 + val_net rest
  | decrement_value_op :: rest => -1 + val_net rest
  | _ :: rest => val_net rest
  end.

Definition value_ops_only (ops : list brainfuck_op) : Prop :=
  Forall (λ o, o = increment_value_op ∨ o = decrement_value_op) ops.

Definition wrap_example_ops : list brainfuck_op :=
  decrement_value_op :: decrement_value_op
  :: replicate 258 increment_value_op.

Definition wrap_example_status : brainfuck_vm_status :=
  mk_status (<[0 := 1]> ∅) 0 [] (-1) [] 0.

Definition clear_example_status : brainfuck_vm_status :=
  mk_status (<[3 := 200]> (<[2 := 9]> ∅)) 3 (prog ">>>,") 3 [] 0.

Definition move_example_status : brainfuck_vm_status :=
  mk_status (<[1 := 250]> (<[0 := 9]> ∅)) 0 (prog ",>,<") 3 [] 0.

Definition straight_example_status : brainfuck_vm_status :=
  mk_status (<[0 := 1]> ∅) 0 (prog "++[->+<") 3 [2] 0.

(** More example inputs. *)
Definition replay_example_before : brainfuck_vm_status :=
  mk_status {[ 0 := 2 ]} 0 (prog "+++[-]") 5 [3] 0.
Definition replay_example_after : brainfuck_vm_status :=
  mk_status {[ 0 := 0 ]} 0 (prog "+++[-]") 5 [] 0.
Definition replay_example_calls : list (ascii * bool) :=
  [("]"%char, true); ("-"%char, true); ("-"%char, true)].

(** * Basic facts *)

Ltac res_simpl :=
  cbn [mbind mret result_bind result_ret] in *.

Ltac st_simpl :=
  unfold set_tape, set_tape_ptr, set_instruction, set_instruction_ptr_current,
         set_instruction_loop_ptr, set_jump_loop in *;
  cbn [tape tape_ptr instruction instruction_ptr_current
       instruction_loop_ptr jump_loop stdin stdout calls] in *.

Ltac int_lia := unfold in_int, INT_MIN, INT_MAX in *; lia.

Lemma replay_body_S run fuel current w s :
  replay_body run (S fuel) current w s =
    if instruction_ptr_current s <? current then
      c ← vector_at (instruction s) (instruction_ptr_current s);
      '(w1, s1) ← run w s c true;
      i ← int_of (instruction_ptr_current s1 + 1);
      replay_body run fuel current w1 (set_instruction_ptr_current i s1)
    else mret (w, s).
Proof. reflexivity. Qed.

Lemma loop_while_S run fuel w s :
  loop_while run (S fuel) w s =
    let '(v, t) := tape_ref (tape s) (tape_ptr s) in
    let s := set_tape t s in
    if negb (v =? 0) then
      let current := instruction_ptr_current s in
      top ← stack_top (instruction_loop_ptr s);
      i ← int_of (top + 1);
      '(w1, s1) ← replay_body run fuel current w (set_instruction_ptr_current i s);
      loop_while run fuel w1 (set_instruction_ptr_current current s1)
    else mret (w, s).
Proof. reflexivity. Qed.

Lemma bind_Done {A B} (m : result A) (f : A → result B) (b : B) :
  m ≫= f = Done b → ∃ a, m = Done a ∧ f a = Done b.
Proof. destruct m; cbn; intros H; try discriminate. eauto. Qed.

Lemma int_of_in z : in_int z → int_of z = Done z.
Proof.
  unfold in_int, int_of. intros [H1 H2].
  apply Z.leb_le in H1. apply Z.leb_le in H2. by rewrite H1, H2.
Qed.

Lemma int_of_Done z z' : int_of z = Done z' → z' = z ∧ in_int z.
Proof.
  unfold int_of, in_int.
  destruct (INT_MIN <=? z) eqn:H1; destruct (z <=? INT_MAX) eqn:H2;
    simpl; intros H; try discriminate.
  apply Z.leb_le in H1. apply Z.leb_le in H2.
  inversion H; subst. by repeat split.
Qed.

Lemma tape_ref_fst t p : (tape_ref t p).1 = cell t p.
Proof. unfold tape_ref, cell. by destruct (t !! p). Qed.

Lemma tape_ref_cell t p q : cell (tape_ref t p).2 q = cell t q.
Proof.
  unfold tape_ref, cell. destruct (t !! p) eqn:E; simpl; [done|].
  destruct (decide (p = q)) as [->|Hne].
  - by rewrite lookup_insert_eq, E.
  - by rewrite lookup_insert_ne.
Qed.

Lemma tape_ref_insert t p x : <[p := x]> (tape_ref t p).2 = <[p := x]> t.
Proof.
  unfold tape_ref. destruct (t !! p); simpl; [done|].
  by rewrite insert_insert_eq.
Qed.

Lemma cell_insert_eq t p x : cell (<[p := x]> t) p = x.
Proof. unfold cell. by rewrite lookup_insert_eq. Qed.

Lemma cell_insert_ne t p q x : p ≠ q → cell (<[p := x]> t) q = cell t q.
Proof. intros H. unfold cell. by rewrite lookup_insert_ne. Qed.

Lemma operator_chars_table : operator_chars = bf_op_table.*1.
Proof. reflexivity. Qed.

Lemma bf_op_map_None c : c ∉ operator_chars → bf_op_map !! c = None.
Proof.
  intros H. unfold bf_op_map. apply not_elem_of_list_to_map_1.
  by rewrite <- operator_chars_table.
Qed.

Lemma bf_op_map_Some c op :
  bf_op_map !! c = Some op → c ∈ operator_chars ∧ op ≠ monostate.
Proof.
  intros H. unfold bf_op_map in H.
  apply elem_of_list_to_map_2 in H.
  split.
  - rewrite operator_chars_table. apply list_elem_of_fmap. by exists (c, op).
  - unfold bf_op_table in H.
    repeat (apply elem_of_cons in H as [H|H]; [by inversion H|]).
    by apply elem_of_nil in H.
Qed.

(** * The instruction decoder *)

(** C7. A symbol that is not one of the eight operator characters is
    decoded to the no-op variant, for a fresh decode and for a replay alike:
    [next_op] returns [monostate] and the status it was given (nothing is
    appended to the instruction log, the instruction pointer keeps its
    value) and does not fail; the visitor's [monostate] handler returns the
    world and the status unchanged; and a whole [run_vm] call on such a
    symbol returns the status unchanged, with nothing read or written. *)
Theorem C7_unrecognized_symbol_is_noop :
  ∀ (c : ascii) (s : brainfuck_vm_status) (via_loop : bool),
    c ∉ operator_chars →
    next_op s c via_loop = Done (monostate, s) ∧
    (∀ run fuel w, visit run fuel monostate w s = Done (w, s)) ∧
    (∀ fuel w, ∃ w',
        run_vm (S fuel) w s c via_loop = Done (w', s) ∧
        stdin w' = stdin w ∧ stdout w' = stdout w).
Proof.
  intros c s via_loop Hc.
  assert (Hn : next_op s c via_loop = Done (monostate, s)).
  { unfold next_op. by rewrite (bf_op_map_None c Hc). }
  split; [exact Hn|]. split; [done|].
  intros fuel w. exists (log_call c via_loop w).
  cbn [run_vm]. rewrite Hn. by res_simpl.
Qed.

Lemma C7_witness :
  next_op init_status " "%char false = Done (monostate, init_status) ∧
  (∀ run fuel w, visit run fuel monostate w init_status = Done (w, init_status)) ∧
  (∀ fuel w, ∃ w',
      run_vm (S fuel) w init_status " "%char false = Done (w', init_status) ∧
      stdin w' = stdin w ∧ stdout w' = stdout w).
Proof.
  apply (C7_unrecognized_symbol_is_noop " "%char init_status false).
  vm_compute. intros H.
  repeat (apply elem_of_cons in H as [H|H]; [discriminate H|]).
  by apply elem_of_nil in H.
Defined.

(** C8. A fresh decode ([via_loop = false]) of a recognized symbol appends
    exactly that symbol to the instruction log and advances the instruction
    pointer by exactly one, leaving every other field as it was (the
    increment of the [int] pointer being representable); a replay decode
    ([via_loop = true]) returns the status it was given, so it never appends
    to the log, whatever the symbol is. *)
Theorem C8_decode_logging :
  ∀ (s : brainfuck_vm_status) (c : ascii),
    (∀ op, bf_op_map !! c = Some op →
           in_int (instruction_ptr_current s + 1) →
           next_op s c false =
             Done (op, mk_status (tape s) (tape_ptr s)
                                 (instruction s ++ [c])
                                 (instruction_ptr_current s + 1)
                                 (instruction_loop_ptr s) (jump_loop s))) ∧
    (∃ op, next_op s c true = Done (op, s)).
Proof.
  intros s c. split.
  - intros op Hop Hi. unfold next_op. rewrite Hop. cbn [negb].
    cbn [set_instruction instruction_ptr_current].
    rewrite (int_of_in _ Hi). by res_simpl.
  - unfold next_op. destruct (bf_op_map !! c) as [op|]; eauto.
Qed.

Lemma C8_witness :
  next_op init_status "["%char false =
    Done (loop_start_op, mk_status ∅ 0 ["["%char] 0 [] 0) ∧
  (∃ op, next_op init_status "["%char true = Done (op, init_status)).
Proof.
  pose proof (C8_decode_logging init_status "["%char) as [H1 H2].
  split; [|exact H2].
  apply (H1 loop_start_op); [reflexivity|].
  unfold in_int, INT_MIN, INT_MAX. simpl. lia.
Defined.

(** * The visitor while skipping *)

Lemma visit_skip run fuel op w s :
  0 < jump_loop s →
  in_int (jump_loop s) →
  (op = loop_start_op → jump_loop s < INT_MAX) →
  ∃ s', visit run fuel op w s = Done (w, s') ∧
        (∀ p, cell (tape s') p = cell (tape s) p) ∧
        tape_ptr s' = tape_ptr s ∧
        instruction_loop_ptr s' = instruction_loop_ptr s ∧
        instruction s' = instruction s ∧
        instruction_ptr_current s' = instruction_ptr_current s ∧
        jump_loop s' = jump_loop s + skip_delta op.
Proof.
  intros Hj Hr Hmax.
  assert (Hz : (jump_loop s =? 0) = false) by (apply Z.eqb_neq; lia).
  destruct op; cbn [visit skip_delta]; rewrite ?Hz; cbn [negb]; res_simpl;
    try (exists s; by rewrite Z.add_0_r).
  - (* loop start: the condition reads the cell, then [jump_loop++] *)
    specialize (Hmax eq_refl).
    destruct (tape_ref (tape s) (tape_ptr s)) as [v t] eqn:E.
    cbn [set_tape jump_loop]. rewrite Hz, andb_false_r.
    rewrite (int_of_in (jump_loop s + 1)) by int_lia. res_simpl.
    eexists. split; [reflexivity|]. cbn.
    repeat split; try done.
    intros p. pose proof (tape_ref_cell (tape s) (tape_ptr s) p) as Hc.
    by rewrite E in Hc.
  - (* loop end: [jump_loop--] *)
    rewrite (int_of_in (jump_loop s - 1)) by int_lia. res_simpl.
    eexists. split; [reflexivity|]. by cbn.
Qed.

(** C2. While [jump_loop] is positive, every one of the nine variants is
    handled without failure and without input or output; the tape read as a
    total mapping, the cell pointer, the loop stack, the instruction log and
    the instruction pointer are the same afterwards; [jump_loop] goes up by
    one for a loop start (it must be below [INT_MAX] for that), down by one
    for a loop end, and keeps its value for the other seven variants. *)
Theorem C2_skip_suppresses_effects :
  ∀ run fuel (op : brainfuck_op) (w : world) (s : brainfuck_vm_status),
    0 < jump_loop s →
    in_int (jump_loop s) →
    (op = loop_start_op → jump_loop s < INT_MAX) →
    ∃ s', visit run fuel op w s = Done (w, s') ∧
          (∀ p, cell (tape s') p = cell (tape s) p) ∧
          tape_ptr s' = tape_ptr s ∧
          instruction_loop_ptr s' = instruction_loop_ptr s ∧
          instruction s' = instruction s ∧
          instruction_ptr_current s' = instruction_ptr_current s ∧
          jump_loop s' = match op with
                         | loop_start_op => jump_loop s + 1
                         | loop_end_op => jump_loop s - 1
                         | _ => jump_loop s
                         end.
Proof.
  intros run fuel op w s Hj Hr Hmax.
  destruct (visit_skip run fuel op w s Hj Hr Hmax)
    as (s' & Hv & Hc & Hp & Hk & Hl & Hi & Hjl).
  exists s'. repeat (split; [done|]).
  rewrite Hjl. destruct op; cbn [skip_delta]; lia.
Qed.

Lemma C2_witness :
  ∃ s', visit (run_vm 0) 0 loop_start_op (mk_world [] [] [])
              (mk_status ∅ 0 [] (-1) [] 1) = Done (mk_world [] [] [], s') ∧
        (∀ p, cell (tape s') p = cell ∅ p) ∧
        tape_ptr s' = 0 ∧
        instruction_loop_ptr s' = [] ∧
        instruction s' = [] ∧
        instruction_ptr_current s' = -1 ∧
        jump_loop s' = 1 + 1.
Proof.
  apply (C2_skip_suppresses_effects (run_vm 0) 0%nat loop_start_op
           (mk_world [] [] []) (mk_status ∅ 0 [] (-1) [] 1)).
  - simpl. lia.
  - unfold in_int, INT_MIN, INT_MAX. simpl. lia.
  - intros _. unfold INT_MAX. simpl. lia.
Defined.

(** * The value and pointer handlers *)

Lemma visit_increment_value run fuel w s :
  jump_loop s = 0 →
  visit run fuel increment_value_op w s =
    Done (w, set_tape (<[tape_ptr s :=
                          to_char (cell (tape s) (tape_ptr s) + 1)]> (tape s)) s).
Proof.
  intros Hj. cbn [visit]. rewrite Hj. cbn.
  pose proof (tape_ref_fst (tape s) (tape_ptr s)) as H1.
  pose proof (tape_ref_insert (tape s) (tape_ptr s)) as H2.
  destruct (tape_ref (tape s) (tape_ptr s)) as [v t]. cbn in H1, H2.
  by rewrite H1, H2.
Qed.

Lemma visit_decrement_value run fuel w s :
  jump_loop s = 0 →
  visit run fuel decrement_value_op w s =
    Done (w, set_tape (<[tape_ptr s :=
                          to_char (cell (tape s) (tape_ptr s) - 1)]> (tape s)) s).
Proof.
  intros Hj. cbn [visit]. rewrite Hj. cbn.
  pose proof (tape_ref_fst (tape s) (tape_ptr s)) as H1.
  pose proof (tape_ref_insert (tape s) (tape_ptr s)) as H2.
  destruct (tape_ref (tape s) (tape_ptr s)) as [v t]. cbn in H1, H2.
  by rewrite H1, H2.
Qed.

Lemma visit_seq_increments run fuel w (N : nat) :
  ∀ s, jump_loop s = 0 →
    ∃ s', visit_seq run fuel (replicate N increment_value_op) w s = Done (w, s') ∧
          cell (tape s') (tape_ptr s') =
            (if N is O then cell (tape s) (tape_ptr s)
             else (cell (tape s) (tape_ptr s) + Z.of_nat N) mod 256) ∧
          tape_ptr s' = tape_ptr s ∧
          jump_loop s' = 0 ∧
          (∀ q, q ≠ tape_ptr s → cell (tape s') q = cell (tape s) q).
Proof.
  induction N as [|N IH]; intros s Hj.
  - exists s. by cbn.
  - cbn [replicate visit_seq]. rewrite visit_increment_value by done. res_simpl.
    set (s1 := set_tape _ s).
    destruct (IH s1 Hj) as (s' & Hrun & Hc & Hp & Hj' & Hq).
    exists s'. split; [exact Hrun|].
    assert (Hc1 : cell (tape s1) (tape_ptr s1) =
                  to_char (cell (tape s) (tape_ptr s) + 1))
      by apply cell_insert_eq.
    split; [|split; [exact Hp|split; [exact Hj'|]]].
    + rewrite Hc, Hc1. unfold to_char. destruct N as [|N].
      * f_equal; lia.
      * rewrite Zplus_mod_idemp_l. f_equal; lia.
    + intros q Hne. rewrite Hq by done. by apply cell_insert_ne.
Qed.

Lemma ptr_net_counts ops :
  ptr_ops_only ops →
  ptr_net ops = Z.of_nat (count_op increment_ptr_op ops)
                - Z.of_nat (count_op decrement_ptr_op ops).
Proof.
  unfold ptr_ops_only, count_op.
  induction 1 as [|op ops [-> | ->] _ IH]; [done| |].
  - cbn [ptr_net]. rewrite filter_cons_True by done.
    rewrite filter_cons_False by done. cbn [length]. lia.
  - cbn [ptr_net]. rewrite filter_cons_False by done.
    rewrite filter_cons_True by done. cbn [length]. lia.
Qed.

Lemma visit_seq_ptr_ops run fuel w ops :
  ptr_ops_only ops →
  ∀ s, jump_loop s = 0 →
       (∀ n, in_int (tape_ptr s + ptr_net (take n ops))) →
       visit_seq run fuel ops w s =
         Done (w, set_tape_ptr (tape_ptr s + ptr_net ops) s).
Proof.
  induction 1 as [|op ops Hop _ IH]; intros s Hj Hr.
  - cbn. destruct s. unfold set_tape_ptr. cbn. do 3 f_equal. lia.
  - assert (Hstep : ∃ d, (d = 1 ∨ d = -1) ∧
                ptr_net [op] = d ∧
                visit run fuel op w s = Done (w, set_tape_ptr (tape_ptr s + d) s)).
    { pose proof (Hr 1%nat) as H1. cbn [take] in H1.
      destruct Hop as [-> | ->]; cbn [ptr_net] in H1.
      - exists 1. split; [by left|]. split; [done|].
        cbn [visit]. rewrite Hj. cbn [Z.eqb].
        rewrite (int_of_in (tape_ptr s + 1)) by (rewrite Z.add_0_r in H1; done).
        by res_simpl.
      - exists (-1). split; [by right|]. split; [done|].
        cbn [visit]. rewrite Hj. cbn [Z.eqb].
        rewrite (int_of_in (tape_ptr s - 1))
          by (rewrite Z.add_0_r in H1; exact H1).
        by res_simpl. }
    destruct Hstep as (d & Hd & Hnet & Hv).
    cbn [visit_seq]. rewrite Hv. res_simpl.
    assert (Hcons : ∀ l, ptr_net (op :: l) = d + ptr_net l).
    { intros l. destruct Hop as [-> | ->]; cbn [ptr_net] in *; lia. }
    rewrite IH.
    + rewrite Hcons. destruct s. unfold set_tape_ptr. cbn.
      do 3 f_equal. lia.
    + done.
    + intros n. cbn [set_tape_ptr tape_ptr].
      specialize (Hr (S n)). cbn [take] in Hr. rewrite Hcons in Hr.
      by rewrite <- Z.add_assoc.
Qed.

Lemma visit_seq_ptr_ops_Done run fuel w ops :
  ptr_ops_only ops →
  ∀ s x, jump_loop s = 0 →
         visit_seq run fuel ops w s = Done x →
         x = (w, set_tape_ptr (tape_ptr s + ptr_net ops) s).
Proof.
  induction 1 as [|op ops Hop _ IH]; intros s x Hj H.
  - cbn in H. injection H as <-. destruct s. unfold set_tape_ptr. cbn.
    do 2 f_equal. lia.
  - cbn [visit_seq] in H. apply bind_Done in H as ([w1 s1] & Hv & H).
    assert (Hstep : ∃ d, (∀ l, ptr_net (op :: l) = d + ptr_net l) ∧
                         w1 = w ∧ s1 = set_tape_ptr (tape_ptr s + d) s).
    { destruct Hop as [-> | ->]; cbn [visit] in Hv; rewrite Hj in Hv;
        cbn [Z.eqb] in Hv; apply bind_Done in Hv as (q & Hq & Hv);
        apply int_of_Done in Hq as [-> _]; injection Hv as <- <-.
      - by exists 1.
      - by exists (-1). }
    destruct Hstep as (d & Hcons & -> & ->).
    apply IH in H; [|done]. subst x. rewrite Hcons.
    destruct s. unfold set_tape_ptr. cbn. do 2 f_equal. lia.
Qed.

(** * Fuel

    A run that finishes keeps its result when it is given more fuel. *)

Section fuel_mono.
Variables run1 run2 : world → brainfuck_vm_status → ascii → bool →
                      result (world * brainfuck_vm_status).
Hypothesis Hrun : run_le run1 run2.

Lemma replay_body_mono f1 : ∀ f2 current w s x,
  (f1 ≤ f2)%nat →
  replay_body run1 f1 current w s = Done x →
  replay_body run2 f2 current w s = Done x.
Proof.
  induction f1 as [|f1 IH]; intros f2 current w s x Hle H; [discriminate H|].
  destruct f2 as [|f2]; [lia|].
  cbn [replay_body] in *.
  destruct (instruction_ptr_current s <? current); [|exact H].
  apply bind_Done in H as (c & -> & H). res_simpl.
  apply bind_Done in H as ([w1 s1] & Hr & H).
  rewrite (Hrun _ _ _ _ _ Hr). res_simpl.
  apply bind_Done in H as (i & -> & H). res_simpl.
  apply IH; [lia|exact H].
Qed.

Lemma loop_while_mono f1 : ∀ f2 w s x,
  (f1 ≤ f2)%nat →
  loop_while run1 f1 w s = Done x →
  loop_while run2 f2 w s = Done x.
Proof.
  induction f1 as [|f1 IH]; intros f2 w s x Hle H; [discriminate H|].
  destruct f2 as [|f2]; [lia|].
  cbn [loop_while] in *.
  destruct (tape_ref (tape s) (tape_ptr s)) as [v t].
  destruct (negb (v =? 0)); [|exact H].
  apply bind_Done in H as (top & -> & H). res_simpl.
  apply bind_Done in H as (i & -> & H). res_simpl.
  apply bind_Done in H as ([w1 s1] & Hr & H).
  rewrite (replay_body_mono f1 f2 _ _ _ _ ltac:(lia) Hr). res_simpl.
  apply IH; [lia|exact H].
Qed.

Lemma visit_mono f1 f2 op w s x :
  (f1 ≤ f2)%nat →
  visit run1 f1 op w s = Done x →
  visit run2 f2 op w s = Done x.
Proof.
  intros Hle H. destruct op; cbn [visit] in *; try exact H.
  destruct (negb (jump_loop s =? 0)); [exact H|].
  destruct (tape_ref (tape s) (tape_ptr s)) as [v t].
  destruct (negb (v =? 0)); [|exact H].
  apply bind_Done in H as ([w1 s1] & Hr & H).
  rewrite (loop_while_mono f1 f2 _ _ _ Hle Hr). exact H.
Qed.
End fuel_mono.

Lemma run_vm_mono f1 : ∀ f2, (f1 ≤ f2)%nat → run_le (run_vm f1) (run_vm f2).
Proof.
  induction f1 as [|f1 IH]; intros f2 Hle w s c v x H; [discriminate H|].
  destruct f2 as [|f2]; [lia|].
  cbn [run_vm] in *.
  apply bind_Done in H as ([op s1] & -> & H). res_simpl.
  eapply visit_mono; [apply IH| |exact H]; lia.
Qed.

Lemma main_loop_mono f1 : ∀ f2 w s x,
  (f1 ≤ f2)%nat →
  main_loop f1 w s = Done x → main_loop f2 w s = Done x.
Proof.
  induction f1 as [|f1 IH]; intros f2 w s x Hle H; [discriminate H|].
  destruct f2 as [|f2]; [lia|].
  cbn [main_loop] in *.
  destruct (skipws (stdin w)) as [|c rest]; [exact H|].
  apply bind_Done in H as ([w1 s1] & Hr & H).
  rewrite (run_vm_mono f1 f2 ltac:(lia) _ _ _ _ _ Hr). res_simpl.
  apply IH; [lia|exact H].
Qed.

Lemma feed_mono f1 f2 p : ∀ w s x,
  (f1 ≤ f2)%nat →
  feed f1 w s p = Done x → feed f2 w s p = Done x.
Proof.
  induction p as [|c p IH]; intros w s x Hle H; [exact H|].
  cbn [feed] in *.
  apply bind_Done in H as ([w1 s1] & Hr & H).
  rewrite (run_vm_mono f1 f2 Hle _ _ _ _ _ Hr). res_simpl.
  by apply IH.
Qed.

(** * Whole programs *)

(** C4. [main] on the input [++>+++++[<+>-]<] finishes, with every amount
    of fuel from 30 on, in one and the same final state: cell 0 holds 7,
    cell 1 holds 0 and the cell pointer is 0 (nothing was printed, the loop
    stack is empty again and [jump_loop] is 0). *)
Theorem C4_add_two_and_five :
  ∃ (w : world) (s : brainfuck_vm_status),
    (∀ fuel, (30 ≤ fuel)%nat →
             main fuel (prog "++>+++++[<+>-]<") = Done (w, s)) ∧
    cell (tape s) 0 = 7 ∧
    cell (tape s) 1 = 0 ∧
    tape_ptr s = 0 ∧
    stdout w = [] ∧
    instruction_loop_ptr s = [] ∧
    jump_loop s = 0.
Proof.
  destruct (main 30 (prog "++>+++++[<+>-]<")) as [[w s]| |] eqn:E;
    [|vm_compute in E; discriminate E..].
  exists w, s. split.
  - intros fuel Hle. unfold main in *.
    by eapply main_loop_mono.
  - vm_compute in E. inversion E; subst. by vm_compute.
Qed.

(** * The loop end and the loop stack *)

(** A loop end met with [jump_loop = 0] on a zero cell takes neither branch
    of [if (status.tape[status.tape_ptr] != 0)]: the [pop] sits inside that
    branch, so the loop stack is returned as it was. *)
Lemma visit_loop_end_zero_cell run fuel w s :
  jump_loop s = 0 →
  cell (tape s) (tape_ptr s) = 0 →
  visit run fuel loop_end_op w s =
    Done (w, set_tape (tape_ref (tape s) (tape_ptr s)).2 s).
Proof.
  intros Hj Hc. cbn [visit]. rewrite Hj. cbn [Z.eqb negb].
  pose proof (tape_ref_fst (tape s) (tape_ptr s)) as H1.
  destruct (tape_ref (tape s) (tape_ptr s)) as [v t]. cbn in H1.
  rewrite H1, Hc. by cbn.
Qed.

(** C1 (the behaviour of the code where it departs from the claim). On the
    input [+[-]] the loop start pushes its index 1, the body brings the
    cell to 0, and the loop end then finds the cell already 0: [main]
    finishes with the cell at 0 and [jump_loop] at 0, but with the entry 1
    still on the loop stack. *)
Theorem C1_origin_left_on_stack_when_cell_already_zero :
  ∃ (w : world) (s : brainfuck_vm_status),
    (∀ fuel, (10 ≤ fuel)%nat → main fuel (prog "+[-]") = Done (w, s)) ∧
    cell (tape s) (tape_ptr s) = 0 ∧
    jump_loop s = 0 ∧
    instruction_ptr_current s = 3 ∧
    instruction_loop_ptr s = [1].
Proof.
  destruct (main 10 (prog "+[-]")) as [[w s]| |] eqn:E;
    [|vm_compute in E; discriminate E..].
  exists w, s. split.
  - intros fuel Hle. unfold main in *. by eapply main_loop_mono.
  - vm_compute in E. inversion E; subst. by vm_compute.
Qed.

(** When the loop end finds a nonzero cell, the body is replayed until the
    cell is 0 and the entry is popped: [++[-]] ends with an empty stack. *)
Example loop_end_pops_after_replay :
  ∃ (w : world) (s : brainfuck_vm_status),
    main 10 (prog "++[-]") = Done (w, s) ∧
    cell (tape s) (tape_ptr s) = 0 ∧
    calls w = [("+"%char, false); ("+"%char, false); ("["%char, false);
               ("-"%char, false); ("]"%char, false); ("-"%char, true)] ∧
    instruction_loop_ptr s = [].
Proof.
  destruct (main 10 (prog "++[-]")) as [[w s]| |] eqn:E;
    [|vm_compute in E; discriminate E..].
  exists w, s. split; [done|].
  vm_compute in E. inversion E; subst. by vm_compute.
Qed.

(** The entry left behind is the top of the stack for an enclosing loop: in
    [++[->+[-]<]] the outer loop end replays from the inner loop's origin,
    and the run ends with the cell pointer at -1. *)
Example stale_origin_misleads_outer_loop :
  ∃ (w : world) (s : brainfuck_vm_status),
    main 30 (prog "++[->+[-]<]") = Done (w, s) ∧
    tape_ptr s = -1 ∧
    instruction_loop_ptr s = [2].
Proof.
  destruct (main 30 (prog "++[->+[-]<]")) as [[w s]| |] eqn:E;
    [|vm_compute in E; discriminate E..].
  exists w, s. split; [done|].
  vm_compute in E. inversion E; subst. by vm_compute.
Qed.

(** * The instruction pointer and the instruction log *)

Section log_frame.
Variable run : world → brainfuck_vm_status → ascii → bool →
               result (world * brainfuck_vm_status).
Hypothesis Hrun : keeps_log run.

Lemma replay_body_log fuel : ∀ current w s w' s',
  replay_body run fuel current w s = Done (w', s') →
  instruction s' = instruction s.
Proof.
  induction fuel as [|fuel IH]; intros current w s w' s' H; [discriminate H|].
  cbn [replay_body] in H.
  destruct (instruction_ptr_current s <? current).
  - apply bind_Done in H as (c & _ & H).
    apply bind_Done in H as ([w1 s1] & Hr & H).
    apply bind_Done in H as (i & _ & H).
    apply IH in H. apply Hrun in Hr as [Hr _].
    by rewrite H.
  - by inversion H.
Qed.

Lemma loop_while_log fuel : ∀ w s w' s',
  loop_while run fuel w s = Done (w', s') →
  instruction s' = instruction s ∧
  instruction_ptr_current s' = instruction_ptr_current s.
Proof.
  induction fuel as [|fuel IH]; intros w s w' s' H; [discriminate H|].
  cbn [loop_while] in H.
  destruct (tape_ref (tape s) (tape_ptr s)) as [v t].
  destruct (negb (v =? 0)).
  - apply bind_Done in H as (top & _ & H).
    apply bind_Done in H as (i & _ & H).
    apply bind_Done in H as ([w1 s1] & Hr & H).
    apply replay_body_log in Hr. apply IH in H as [H1 H2].
    split; [by rewrite H1|by rewrite H2].
  - by inversion H.
Qed.

Lemma visit_log fuel op w s w' s' :
  visit run fuel op w s = Done (w', s') →
  instruction s' = instruction s ∧
  instruction_ptr_current s' = instruction_ptr_current s.
Proof.
  intros H. destruct op; cbn [visit] in H;
    try (destruct (jump_loop s =? 0);
         [|by inversion H]).
  1,2,5: destruct (tape_ref (tape s) (tape_ptr s)) as [v t];
         by inversion H.
  1,2: apply bind_Done in H as (p & _ & H); by inversion H.
  - destruct (getchar w) as [x w1].
    destruct (tape_ref (tape s) (tape_ptr s)) as [v t]. by inversion H.
  - destruct (tape_ref (tape s) (tape_ptr s)) as [v t].
    destruct (negb (v =? 0) && (jump_loop (set_tape t s) =? 0)).
    + by inversion H.
    + apply bind_Done in H as (j & _ & H). by inversion H.
  - destruct (negb (jump_loop s =? 0)).
    + apply bind_Done in H as (j & _ & H). by inversion H.
    + destruct (tape_ref (tape s) (tape_ptr s)) as [v t].
      destruct (negb (v =? 0)); [|by inversion H].
      apply bind_Done in H as ([w1 s1] & Hr & H).
      apply bind_Done in H as (k & _ & H).
      apply loop_while_log in Hr. by inversion H.
  - by inversion H.
Qed.
End log_frame.

Lemma next_op_replay s c : ∃ op, next_op s c true = Done (op, s).
Proof. unfold next_op. destruct (bf_op_map !! c); eauto. Qed.

Lemma run_vm_keeps_log fuel : keeps_log (run_vm fuel).
Proof.
  induction fuel as [|fuel IH]; intros w s c w' s' H; [discriminate H|].
  cbn [run_vm] in H.
  destruct (next_op_replay s c) as [op Hop]. rewrite Hop in H. res_simpl.
  by eapply visit_log.
Qed.

Lemma bf_op_map_is_Some c : c ∈ operator_chars → is_Some (bf_op_map !! c).
Proof.
  unfold operator_chars. intros H.
  repeat (apply elem_of_cons in H as [-> | H]; [by eexists|]).
  by apply elem_of_nil in H.
Qed.

Lemma run_vm_fresh_log fuel w s c w' s' :
  instruction_ptr_current s = Z.of_nat (length (instruction s)) - 1 →
  run_vm fuel w s c false = Done (w', s') →
  instruction_ptr_current s' = Z.of_nat (length (instruction s')) - 1 ∧
  (c ∈ operator_chars →
     instruction s' = instruction s ++ [c] ∧
     instruction_ptr_current s' = instruction_ptr_current s + 1) ∧
  (c ∉ operator_chars →
     instruction s' = instruction s ∧
     instruction_ptr_current s' = instruction_ptr_current s).
Proof.
  intros Hinv H.
  destruct fuel as [|fuel]; [discriminate H|].
  cbn [run_vm] in H.
  apply bind_Done in H as ([op s1] & Hn & H). res_simpl.
  apply (visit_log _ (run_vm_keeps_log fuel)) in H as [Hl Hp].
  unfold next_op in Hn.
  destruct (bf_op_map !! c) as [op'|] eqn:Hc.
  - cbn [negb] in Hn.
    apply bind_Done in Hn as (i & Hi & Hn).
    apply int_of_Done in Hi as [-> _].
    inversion Hn; subst op s1; clear Hn.
    cbn in Hl, Hp.
    assert (Hs : instruction s' = instruction s ++ [c] ∧
                 instruction_ptr_current s' = instruction_ptr_current s + 1)
      by done.
    split; [|split; [done|]].
    + destruct Hs as [-> ->]. rewrite length_app. cbn [length]. lia.
    + intros Hnot. apply bf_op_map_Some in Hc as [Hc _]. done.
  - inversion Hn; subst op s1; clear Hn.
    split; [by rewrite Hl, Hp|]. split; [|done].
    intros Hin. apply bf_op_map_is_Some in Hin as [? Hin]. congruence.
Qed.

(** C10. A fresh [run_vm] call that finishes keeps the relation
    "instruction pointer = length of the instruction log - 1": for one of
    the eight operator characters the log has grown by exactly that symbol
    and the pointer by exactly one, for any other symbol both are unchanged;
    whatever the loop-end handler did to the pointer while replaying has
    been undone by the time the call returns. *)
Theorem C10_instruction_ptr_is_last_log_index :
  ∀ fuel (w : world) (s : brainfuck_vm_status) (c : ascii)
    (w' : world) (s' : brainfuck_vm_status),
    instruction_ptr_current s = Z.of_nat (length (instruction s)) - 1 →
    run_vm fuel w s c false = Done (w', s') →
    instruction_ptr_current s' = Z.of_nat (length (instruction s')) - 1 ∧
    (c ∈ operator_chars →
       instruction s' = instruction s ++ [c] ∧
       instruction_ptr_current s' = instruction_ptr_current s + 1) ∧
    (c ∉ operator_chars →
       instruction s' = instruction s ∧
       instruction_ptr_current s' = instruction_ptr_current s).
Proof. intros fuel w s c w' s'. apply run_vm_fresh_log. Qed.

Lemma C10_witness :
  instruction_ptr_current C10_example_after
    = Z.of_nat (length (instruction C10_example_after)) - 1 ∧
  ("]"%char ∈ operator_chars →
     instruction C10_example_after = instruction C10_example_before ++ ["]"%char] ∧
     instruction_ptr_current C10_example_after
       = instruction_ptr_current C10_example_before + 1) ∧
  ("]"%char ∉ operator_chars →
     instruction C10_example_after = instruction C10_example_before ∧
     instruction_ptr_current C10_example_after
       = instruction_ptr_current C10_example_before).
Proof.
  apply (C10_instruction_ptr_is_last_log_index 5%nat (mk_world [] [] [])
           C10_example_before "]"%char
           (mk_world [] [] [("]"%char, false); ("-"%char, true)])
           C10_example_after).
  - reflexivity.
  - vm_compute. reflexivity.
Defined.

(** The relation holds initially, so it holds after any program fed to a
    fresh machine. *)
Lemma feed_instruction_ptr fuel p : ∀ w s w' s',
  instruction_ptr_current s = Z.of_nat (length (instruction s)) - 1 →
  feed fuel w s p = Done (w', s') →
  instruction_ptr_current s' = Z.of_nat (length (instruction s')) - 1.
Proof.
  induction p as [|c p IH]; intros w s w' s' Hinv H.
  - by inversion H; subst.
  - cbn [feed] in H. apply bind_Done in H as ([w1 s1] & Hr & H).
    eapply IH; [|exact H].
    by eapply run_vm_fresh_log.
Qed.

(** * Skipping a loop *)

Lemma bf_op_map_bracket c op :
  bf_op_map !! c = Some op → skip_delta op = bracket_delta c.
Proof.
  intros H. unfold bf_op_map in H. apply elem_of_list_to_map_2 in H.
  unfold bf_op_table in H.
  repeat (apply elem_of_cons in H as [H|H]; [by inversion H|]).
  by apply elem_of_nil in H.
Qed.

Lemma bracket_delta_other c : c ∉ operator_chars → bracket_delta c = 0.
Proof.
  intros H. unfold bracket_delta.
  destruct (Ascii.eqb_spec c "["%char) as [->|_].
  { exfalso. apply H. unfold operator_chars. set_solver. }
  destruct (Ascii.eqb_spec c "]"%char) as [->|_]; [|done].
  exfalso. apply H. unfold operator_chars. set_solver.
Qed.

Lemma logged_length_le p : (length (logged p) ≤ length p)%nat.
Proof. apply length_filter. Qed.

Lemma feed_app fuel p1 : ∀ p2 w s,
  feed fuel w s (p1 ++ p2) =
    '(w1, s1) ← feed fuel w s p1; feed fuel w1 s1 p2.
Proof.
  induction p1 as [|c p1 IH]; intros p2 w s; [done|].
  cbn [app feed]. destruct (run_vm fuel w s c false) as [[w1 s1]| |]; [|done..].
  res_simpl. apply IH.
Qed.

(** One fresh symbol while skipping. *)
Lemma run_vm_skip_step fuel w s c :
  0 < jump_loop s →
  in_int (jump_loop s + 1) →
  in_int (instruction_ptr_current s + 1) →
  ∃ w' s',
    run_vm (S fuel) w s c false = Done (w', s') ∧
    stdin w' = stdin w ∧ stdout w' = stdout w ∧
    (∀ p, cell (tape s') p = cell (tape s) p) ∧
    tape_ptr s' = tape_ptr s ∧
    instruction_loop_ptr s' = instruction_loop_ptr s ∧
    jump_loop s' = jump_loop s + bracket_delta c ∧
    instruction s' = instruction s ++ logged [c] ∧
    instruction_ptr_current s' =
      instruction_ptr_current s + Z.of_nat (length (logged [c])).
Proof.
  intros Hj Hjr Hir. cbn [run_vm]. unfold next_op, logged.
  destruct (bf_op_map !! c) as [op|] eqn:Hc.
  - cbn [negb set_instruction instruction_ptr_current].
    rewrite (int_of_in _ Hir). res_simpl.
    set (s1 := set_instruction_ptr_current _ _).
    destruct (visit_skip (run_vm fuel) fuel op (log_call c false w) s1)
      as (s' & Hv & Hcell & Hp & Hk & Hl & Hi & Hjl);
      [done|subst s1; st_simpl; int_lia|intros _; subst s1; st_simpl; int_lia|].
    rewrite Hv. eexists _, s'. split; [reflexivity|].
    rewrite (bf_op_map_bracket _ _ Hc) in Hjl.
    apply bf_op_map_Some in Hc as [Hc _].
    rewrite filter_cons_True by done. rewrite filter_nil.
    by repeat split.
  - res_simpl.
    assert (Hn : c ∉ operator_chars).
    { intros Hin. apply bf_op_map_is_Some in Hin as [? Hin]. congruence. }
    rewrite filter_cons_False by done. rewrite filter_nil.
    rewrite (bracket_delta_other c Hn).
    eexists _, s. split; [reflexivity|].
    rewrite app_nil_r. cbn [length]. repeat split; try done; lia.
Qed.

(** A stretch of symbols whose brackets are matched, fed while skipping. *)
Lemma feed_skip fuel body : ∀ (d : nat) w s,
  balanced_from d body = true →
  Z.of_nat d < jump_loop s →
  jump_loop s + Z.of_nat (length body) ≤ INT_MAX →
  INT_MIN - 1 ≤ instruction_ptr_current s →
  instruction_ptr_current s + Z.of_nat (length body) ≤ INT_MAX →
  ∃ w' s',
    feed (S fuel) w s body = Done (w', s') ∧
    stdin w' = stdin w ∧ stdout w' = stdout w ∧
    (∀ p, cell (tape s') p = cell (tape s) p) ∧
    tape_ptr s' = tape_ptr s ∧
    instruction_loop_ptr s' = instruction_loop_ptr s ∧
    jump_loop s' = jump_loop s - Z.of_nat d ∧
    instruction s' = instruction s ++ logged body ∧
    instruction_ptr_current s' =
      instruction_ptr_current s + Z.of_nat (length (logged body)).
Proof.
  induction body as [|c body IH]; intros d w s Hb Hd Hjr Hi1 Hi2.
  - cbn [balanced_from] in Hb. apply Nat.eqb_eq in Hb. subst d.
    exists w, s. cbn. rewrite app_nil_r. repeat split; try done; lia.
  - cbn [length] in Hjr, Hi2.
    destruct (run_vm_skip_step fuel w s c)
      as (w1 & s1 & Hr & Hin & Hout & Hcell & Hp & Hk & Hj & Hl & Hi);
      [lia|int_lia|int_lia|].
    pose proof (logged_length_le [c]) as Hlen. cbn [length] in Hlen.
    assert (Hnext : ∃ d1 : nat,
               balanced_from d1 body = true ∧
               Z.of_nat d1 = Z.of_nat d + bracket_delta c).
    { cbn [balanced_from] in Hb. unfold bracket_delta.
      destruct (Ascii.eqb c "["%char).
      - exists (S d). split; [done|lia].
      - destruct (Ascii.eqb c "]"%char).
        + destruct d as [|d']; [discriminate Hb|].
          exists d'. split; [done|lia].
        + exists d. split; [done|lia]. }
    destruct Hnext as (d1 & Hb1 & Hd1).
    assert (Hbd : -1 ≤ bracket_delta c ≤ 1).
    { unfold bracket_delta.
      destruct (Ascii.eqb c "["%char), (Ascii.eqb c "]"%char); lia. }
    destruct (IH d1 w1 s1 Hb1)
      as (w' & s' & Hf & Hin' & Hout' & Hcell' & Hp' & Hk' & Hj' & Hl' & Hi');
      [lia..|].
    exists w', s'. cbn [feed]. rewrite Hr. res_simpl.
    split; [exact Hf|].
    assert (Hlog : logged (c :: body) = logged [c] ++ logged body).
    { unfold logged. by rewrite (filter_app _ [c] body). }
    rewrite Hlog, length_app.
    split; [congruence|]. split; [congruence|].
    split; [intros p; by rewrite Hcell', Hcell|].
    split; [congruence|]. split; [congruence|].
    split; [lia|]. split; [|lia].
    by rewrite Hl', Hl, <- app_assoc.
Qed.

(** A fresh loop start on a zero cell with [jump_loop = 0]. *)
Lemma run_vm_loop_start_zero fuel w s :
  jump_loop s = 0 →
  cell (tape s) (tape_ptr s) = 0 →
  in_int (instruction_ptr_current s + 1) →
  ∃ w' s',
    run_vm (S fuel) w s "["%char false = Done (w', s') ∧
    stdin w' = stdin w ∧ stdout w' = stdout w ∧
    (∀ p, cell (tape s') p = cell (tape s) p) ∧
    tape_ptr s' = tape_ptr s ∧
    instruction_loop_ptr s' = instruction_loop_ptr s ∧
    jump_loop s' = 1 ∧
    instruction s' = instruction s ++ ["["%char] ∧
    instruction_ptr_current s' = instruction_ptr_current s + 1.
Proof.
  intros Hj Hc Hir. cbn [run_vm]. unfold next_op.
  change (bf_op_map !! "["%char) with (Some loop_start_op).
  cbn [negb set_instruction instruction_ptr_current].
  rewrite (int_of_in _ Hir). res_simpl.
  cbn [visit]. st_simpl.
  pose proof (tape_ref_fst (tape s) (tape_ptr s)) as H1.
  pose proof (tape_ref_cell (tape s) (tape_ptr s)) as H2.
  destruct (tape_ref (tape s) (tape_ptr s)) as [v t]. cbn [fst snd] in H1, H2.
  rewrite H1, Hc. cbn [Z.eqb negb andb]. st_simpl.
  rewrite Hj. change (int_of (0 + 1)) with (Done (A:=Z) 1). res_simpl.
  eexists _, _. split; [reflexivity|]. by st_simpl.
Qed.

(** C6. A loop start met with [jump_loop = 0] on a zero cell, then a body
    whose brackets are matched (loops nested to any depth, any other
    symbols), then the loop end, all fed as fresh symbols: every call
    finishes, nothing is printed and nothing is read, the tape as a total
    mapping and the cell pointer are unchanged, [jump_loop] is 0 again and
    the loop stack is what it was before the loop start. The symbols are
    logged, so the instruction pointer must have room to count them. *)
Theorem C6_false_loop_is_skipped :
  ∀ fuel (w : world) (s : brainfuck_vm_status) (body : list ascii),
    jump_loop s = 0 →
    cell (tape s) (tape_ptr s) = 0 →
    balanced body = true →
    -1 ≤ instruction_ptr_current s →
    instruction_ptr_current s + Z.of_nat (length body) + 2 ≤ INT_MAX →
    ∃ w' s',
      feed (S fuel) w s ("["%char :: body ++ ["]"%char]) = Done (w', s') ∧
      stdout w' = stdout w ∧
      stdin w' = stdin w ∧
      (∀ p, cell (tape s') p = cell (tape s) p) ∧
      tape_ptr s' = tape_ptr s ∧
      jump_loop s' = 0 ∧
      instruction_loop_ptr s' = instruction_loop_ptr s ∧
      instruction s' = instruction s ++ "["%char :: logged body ++ ["]"%char].
Proof.
  intros fuel w s body Hj Hc Hb Hi1 Hi2.
  destruct (run_vm_loop_start_zero fuel w s Hj Hc)
    as (w1 & s1 & Hr1 & Hin1 & Hout1 & Hcell1 & Hp1 & Hk1 & Hj1 & Hl1 & Hip1);
    [int_lia|].
  destruct (feed_skip fuel body 0 w1 s1 Hb)
    as (w2 & s2 & Hr2 & Hin2 & Hout2 & Hcell2 & Hp2 & Hk2 & Hj2 & Hl2 & Hip2);
    [int_lia..|].
  pose proof (logged_length_le body) as Hlen.
  destruct (run_vm_skip_step fuel w2 s2 "]"%char)
    as (w3 & s3 & Hr3 & Hin3 & Hout3 & Hcell3 & Hp3 & Hk3 & Hj3 & Hl3 & Hip3);
    [int_lia..|].
  exists w3, s3. cbn [feed]. rewrite Hr1. res_simpl.
  rewrite feed_app, Hr2. res_simpl. cbn [feed]. rewrite Hr3. res_simpl.
  split; [done|].
  split; [congruence|]. split; [congruence|].
  split; [intros p; by rewrite Hcell3, Hcell2, Hcell1|].
  split; [congruence|].
  split; [rewrite Hj3, Hj2, Hj1; by cbn|].
  split; [congruence|].
  rewrite Hl3, Hl2, Hl1. rewrite <- !app_assoc. done.
Qed.

Lemma C6_witness :
  ∃ w' s',
    feed 1 (mk_world [] [] []) init_status
         ("["%char :: prog "+[.[-]],>[x]" ++ ["]"%char]) = Done (w', s') ∧
    stdout w' = [] ∧
    stdin w' = [] ∧
    (∀ p, cell (tape s') p = cell ∅ p) ∧
    tape_ptr s' = 0 ∧
    jump_loop s' = 0 ∧
    instruction_loop_ptr s' = [] ∧
    instruction s' =
      [] ++ "["%char :: logged (prog "+[.[-]],>[x]") ++ ["]"%char].
Proof.
  apply (C6_false_loop_is_skipped 0%nat (mk_world [] [] []) init_status
           (prog "+[.[-]],>[x]")).
  - reflexivity.
  - reflexivity.
  - reflexivity.
  - simpl. lia.
  - unfold INT_MAX. simpl. lia.
Defined.

(** * The decrement-until-zero loop *)

Lemma add_calls_nil w : add_calls [] w = w.
Proof. destruct w. unfold add_calls. cbn. by rewrite app_nil_r. Qed.

Lemma add_calls_app cs1 cs2 w :
  add_calls cs2 (add_calls cs1 w) = add_calls (cs1 ++ cs2) w.
Proof. unfold add_calls. cbn. by rewrite app_assoc. Qed.

Lemma tape_ref_nonzero t p : cell t p ≠ 0 → tape_ref t p = (cell t p, t).
Proof. unfold tape_ref, cell. by destruct (t !! p). Qed.

Lemma run_vm_plus f w t p l i stk :
  in_int (i + 1) →
  run_vm (S f) w (mk_status t p l i stk 0) "+"%char false =
    Done (add_calls [("+"%char, false)] w,
          mk_status (<[p := to_char (cell t p + 1)]> t) p
                    (l ++ ["+"%char]) (i + 1) stk 0).
Proof.
  intros Hi. cbn [run_vm]. unfold next_op.
  change (bf_op_map !! "+"%char) with (Some increment_value_op).
  cbn [negb]. st_simpl. rewrite (int_of_in _ Hi). res_simpl.
  by rewrite visit_increment_value.
Qed.

Lemma run_vm_minus f w t p l i stk :
  in_int (i + 1) →
  run_vm (S f) w (mk_status t p l i stk 0) "-"%char false =
    Done (add_calls [("-"%char, false)] w,
          mk_status (<[p := to_char (cell t p - 1)]> t) p
                    (l ++ ["-"%char]) (i + 1) stk 0).
Proof.
  intros Hi. cbn [run_vm]. unfold next_op.
  change (bf_op_map !! "-"%char) with (Some decrement_value_op).
  cbn [negb]. st_simpl. rewrite (int_of_in _ Hi). res_simpl.
  by rewrite visit_decrement_value.
Qed.

Lemma run_vm_minus_replay f w t p l i stk :
  run_vm (S f) w (mk_status t p l i stk 0) "-"%char true =
    Done (add_calls [("-"%char, true)] w,
          mk_status (<[p := to_char (cell t p - 1)]> t) p l i stk 0).
Proof.
  cbn [run_vm]. unfold next_op.
  change (bf_op_map !! "-"%char) with (Some decrement_value_op).
  cbn [negb]. res_simpl.
  by rewrite visit_decrement_value.
Qed.

Lemma run_vm_loop_start_nonzero f w t p l i stk :
  in_int (i + 1) →
  cell t p ≠ 0 →
  run_vm (S f) w (mk_status t p l i stk 0) "["%char false =
    Done (add_calls [("["%char, false)] w,
          mk_status t p (l ++ ["["%char]) (i + 1) ((i + 1) :: stk) 0).
Proof.
  intros Hi Hc. cbn [run_vm]. unfold next_op.
  change (bf_op_map !! "["%char) with (Some loop_start_op).
  cbn [negb]. st_simpl. rewrite (int_of_in _ Hi). res_simpl.
  cbn [visit]. st_simpl. rewrite (tape_ref_nonzero _ _ Hc).
  apply Z.eqb_neq in Hc. rewrite Hc. by cbn.
Qed.

Lemma feed_plus f (n : nat) : ∀ w t p l i stk,
  -1 ≤ i → i + Z.of_nat n ≤ INT_MAX →
  0 ≤ cell t p < 256 →
  ∃ t',
    feed (S f) w (mk_status t p l i stk 0) (replicate n "+"%char) =
      Done (add_calls (replicate n ("+"%char, false)) w,
            mk_status t' p (l ++ replicate n "+"%char) (i + Z.of_nat n) stk 0) ∧
    cell t' p = (cell t p + Z.of_nat n) mod 256.
Proof.
  induction n as [|n IH]; intros w t p l i stk Hi1 Hi2 Hc.
  - exists t. cbn [replicate feed]. res_simpl.
    rewrite add_calls_nil, app_nil_r, !Z.add_0_r.
    split; [done|]. by rewrite Z.mod_small.
  - cbn [replicate feed]. rewrite run_vm_plus by int_lia. res_simpl.
    destruct (IH (add_calls [("+"%char, false)] w)
                 (<[p := to_char (cell t p + 1)]> t) p
                 (l ++ ["+"%char]) (i + 1) stk)
      as (t' & Hf & Hc'); [lia|lia| |].
    { rewrite cell_insert_eq. unfold to_char.
      pose proof (Z.mod_pos_bound (cell t p + 1) 256). lia. }
    exists t'. rewrite Hf, add_calls_app. split.
    + rewrite <- app_assoc. do 3 f_equal. lia.
    + rewrite Hc', cell_insert_eq. unfold to_char.
      rewrite Zplus_mod_idemp_l. f_equal. lia.
Qed.

(** The [while] of the loop end, for a body that is the single symbol [-]
    logged right after the loop start at index [top]: [j] more rounds. *)
Lemma loop_while_minus fr (j : nat) : ∀ fuel w t p l top stk,
  (j + 2 ≤ fuel)%nat →
  cell t p = Z.of_nat j →
  Z.of_nat j < 256 →
  0 ≤ top → top + 2 ≤ INT_MAX →
  l !! Z.to_nat (top + 1) = Some "-"%char →
  ∃ t',
    loop_while (run_vm (S fr)) fuel w (mk_status t p l (top + 2) (top :: stk) 0) =
      Done (add_calls (replicate j ("-"%char, true)) w,
            mk_status t' p l (top + 2) (top :: stk) 0) ∧
    cell t' p = 0.
Proof.
  induction j as [|j IH]; intros fuel w t p l top stk Hf Hc Hj Ht1 Ht2 Hl;
    (destruct fuel as [|fuel]; [lia|]); rewrite loop_while_S; st_simpl.
  - pose proof (tape_ref_fst t p) as H1.
    pose proof (tape_ref_cell t p p) as H2.
    destruct (tape_ref t p) as [v t0]. cbn [fst snd] in H1, H2.
    rewrite H1, Hc. cbn [Z.of_nat Z.eqb negb]. res_simpl.
    exists t0. rewrite add_calls_nil. split; [done|]. by rewrite H2, Hc.
  - rewrite tape_ref_nonzero by lia.
    assert (Hne : (cell t p =? 0) = false) by (apply Z.eqb_neq; lia).
    rewrite Hne. cbn [negb stack_top]. res_simpl.
    rewrite (int_of_in (top + 1)) by int_lia. res_simpl.
    destruct fuel as [|[|fuel]]; [lia|lia|].
    rewrite replay_body_S. st_simpl.
    assert (Hlt : (top + 1 <? top + 2) = true) by (apply Z.ltb_lt; lia).
    rewrite Hlt. unfold vector_at.
    assert (Hge : (top + 1 <? 0) = false) by (apply Z.ltb_ge; lia).
    rewrite Hge, Hl. res_simpl.
    rewrite run_vm_minus_replay. res_simpl. st_simpl.
    rewrite (int_of_in (top + 1 + 1)) by int_lia. res_simpl.
    rewrite replay_body_S. st_simpl.
    assert (Hnl : (top + 1 + 1 <? top + 2) = false) by (apply Z.ltb_ge; lia).
    rewrite Hnl. res_simpl. st_simpl.
    destruct (IH (S (S fuel)) (add_calls [("-"%char, true)] w)
                 (<[p := to_char (cell t p - 1)]> t) p l top stk)
      as (t' & Hw & Hc'); [lia| |lia|lia|lia|done|].
    { rewrite cell_insert_eq, Hc. unfold to_char.
      rewrite Z.mod_small by lia. lia. }
    exists t'. rewrite Hw, add_calls_app. by split.
Qed.

(** The fresh loop end that closes [[-]]: the cell holds [j] when it is
    reached, the loop start is logged at index [top]. *)
Lemma run_vm_loop_end_minus f (j : nat) w t p l top stk :
  (j + 2 ≤ f)%nat →
  cell t p = Z.of_nat j →
  Z.of_nat j < 256 →
  0 ≤ top → top + 2 ≤ INT_MAX →
  l !! Z.to_nat (top + 1) = Some "-"%char →
  ∃ t',
    run_vm (S f) w (mk_status t p l (top + 1) (top :: stk) 0) "]"%char false =
      Done (add_calls (("]"%char, false) :: replicate j ("-"%char, true)) w,
            mk_status t' p (l ++ ["]"%char]) (top + 2)
                      (if j is O then top :: stk else stk) 0) ∧
    cell t' p = 0.
Proof.
  intros Hf Hc Hj Ht1 Ht2 Hl. cbn [run_vm]. unfold next_op.
  change (bf_op_map !! "]"%char) with (Some loop_end_op).
  cbn [negb]. st_simpl. rewrite (int_of_in (top + 1 + 1)) by int_lia.
  res_simpl. cbn [visit]. st_simpl. cbn [Z.eqb negb].
  destruct j as [|j].
  - pose proof (tape_ref_fst t p) as H1.
    pose proof (tape_ref_cell t p p) as H2.
    destruct (tape_ref t p) as [v t0]. cbn [fst snd] in H1, H2.
    rewrite H1, Hc. cbn [Z.of_nat Z.eqb negb]. res_simpl.
    exists t0. split; [|by rewrite H2, Hc].
    do 3 f_equal. lia.
  - rewrite tape_ref_nonzero by lia.
    assert (Hne : (cell t p =? 0) = false) by (apply Z.eqb_neq; lia).
    rewrite Hne. cbn [negb].
    destruct f as [|fr]; [lia|].
    replace (top + 1 + 1) with (top + 2) by lia.
    destruct (loop_while_minus fr (S j) (S fr)
                (log_call "]"%char false w) t p (l ++ ["]"%char]) top stk)
      as (t' & Hw & Hc'); [lia|done|lia|lia|lia| |].
    { apply lookup_app_l_Some. exact Hl. }
    rewrite Hw. res_simpl. st_simpl.
    change (stack_pop (top :: stk)) with (Done stk). res_simpl.
    exists t'. split; [|exact Hc'].
    change (log_call "]"%char false w) with (add_calls [("]"%char, false)] w).
    by rewrite add_calls_app.
Qed.

Lemma count_calls_app c cs1 cs2 :
  count_calls c (cs1 ++ cs2) = (count_calls c cs1 + count_calls c cs2)%nat.
Proof. unfold count_calls. by rewrite filter_app, length_app. Qed.

Lemma count_calls_replicate c c' b n :
  count_calls c (replicate n (c', b)) = if decide (c' = c) then n else 0%nat.
Proof.
  unfold count_calls. induction n as [|n IH]; cbn [replicate].
  - by destruct (decide (c' = c)).
  - destruct (decide (c' = c)) as [->|Hne].
    + rewrite filter_cons_True by done. cbn [length]. by rewrite IH.
    + rewrite filter_cons_False by done. exact IH.
Qed.

Lemma countdown_calls_minus k :
  (0 < k)%nat → count_calls "-"%char (countdown_calls k) = k.
Proof.
  intros Hk. unfold countdown_calls.
  rewrite !count_calls_app, !count_calls_replicate.
  rewrite decide_False by discriminate. rewrite decide_True by done.
  change (count_calls "-"%char _) with 1%nat. lia.
Qed.

Lemma feed_countdown (k : nat) fuel w :
  (0 < k)%nat → Z.of_nat k < 256 → (k + 2 ≤ fuel)%nat →
  ∃ t',
    feed fuel w init_status (replicate k "+"%char ++ prog "[-]") =
      Done (add_calls (countdown_calls k) w,
            mk_status t' 0 (replicate k "+"%char ++ prog "[-]")
                      (-1 + Z.of_nat k + 1 + 2)
                      (if (k - 1)%nat is O then [-1 + Z.of_nat k + 1] else [])
                      0) ∧
    cell t' 0 = 0.
Proof.
  intros Hk Hk256 Hfuel. destruct fuel as [|f]; [lia|].
  rewrite feed_app. unfold init_status.
  destruct (feed_plus f k w ∅ 0 [] (-1) [])
    as (t1 & Hf1 & Hc1); [lia|int_lia|done|].
  rewrite Hf1. res_simpl. cbn [prog list_ascii_of_string feed].
  change (cell ∅ 0) with 0 in Hc1. rewrite Z.add_0_l in Hc1.
  rewrite Z.mod_small in Hc1 by lia.
  rewrite run_vm_loop_start_nonzero by (int_lia || lia). res_simpl.
  rewrite run_vm_minus by int_lia. res_simpl.
  set (top := -1 + Z.of_nat k + 1).
  destruct (run_vm_loop_end_minus f (k - 1)
              (add_calls [("-"%char, false)]
                 (add_calls [("["%char, false)]
                    (add_calls (replicate k ("+"%char, false)) w)))
              (<[0 := to_char (cell t1 0 - 1)]> t1) 0
              ((([] ++ replicate k "+"%char) ++ ["["%char]) ++ ["-"%char])
              top [])
    as (t' & Hr & Hc'); [lia| |lia|lia|int_lia| |].
  { rewrite cell_insert_eq, Hc1. unfold to_char.
    rewrite Z.mod_small by lia. lia. }
  { apply list_lookup_middle.
    rewrite length_app, app_nil_l, length_replicate. cbn [length]. lia. }
  rewrite Hr. res_simpl. exists t'. split; [|exact Hc'].
  rewrite !add_calls_app. unfold countdown_calls.
  rewrite app_nil_l, <- !app_assoc. done.
Qed.

(** C3. On a fresh machine, [k] value increments (0 < k < 256) followed by
    [[-]] finish with any fuel from [k + 2] on: the cell under the pointer
    holds 0; the symbol [-] was run exactly [k] times (once as a fresh
    symbol and [k - 1] times as a replay, and these replays are the only
    ones); the instruction pointer is [k + 2], the index at which the loop
    end sits in the log; nothing was printed. (The loop stack is empty
    afterwards except for k = 1, where the loop end finds the cell already
    0 and the entry [k] stays.) *)
Theorem C3_countdown_loop_runs_k_times :
  ∀ (k fuel : nat) (w : world),
    (0 < k)%nat → Z.of_nat k < 256 → (k + 2 ≤ fuel)%nat →
    ∃ w' s',
      feed fuel w init_status (replicate k "+"%char ++ prog "[-]")
        = Done (w', s') ∧
      tape_ptr s' = 0 ∧
      cell (tape s') (tape_ptr s') = 0 ∧
      calls w' = calls w ++ countdown_calls k ∧
      count_calls "-"%char (countdown_calls k) = k ∧
      instruction s' = replicate k "+"%char ++ prog "[-]" ∧
      instruction_ptr_current s' = Z.of_nat k + 2 ∧
      instruction s' !! (k + 2)%nat = Some "]"%char ∧
      jump_loop s' = 0 ∧
      stdout w' = stdout w ∧
      instruction_loop_ptr s' = (if decide (k = 1%nat) then [Z.of_nat k] else []).
Proof.
  intros k fuel w Hk Hk256 Hfuel.
  destruct (feed_countdown k fuel w Hk Hk256 Hfuel) as (t' & Hf & Hc).
  eexists _, _. split; [exact Hf|]. st_simpl.
  split; [done|]. split; [done|]. split; [done|].
  split; [by apply countdown_calls_minus|].
  split; [done|]. split; [lia|].
  split.
  { cbn [prog list_ascii_of_string].
    replace (replicate k "+"%char ++ ["["%char; "-"%char; "]"%char])
      with ((replicate k "+"%char ++ ["["%char; "-"%char]) ++ ["]"%char])
      by (by rewrite <- app_assoc).
    apply list_lookup_middle.
    rewrite length_app, length_replicate. cbn [length]. lia. }
  split; [done|]. split; [done|].
  destruct (decide (k = 1%nat)) as [->|Hne]; [done|].
  destruct (k - 1)%nat eqn:E; [lia|done].
Qed.

Lemma C3_witness :
  ∃ w' s',
    feed 7 (mk_world [] [] []) init_status (replicate 5 "+"%char ++ prog "[-]")
      = Done (w', s') ∧
    tape_ptr s' = 0 ∧
    cell (tape s') (tape_ptr s') = 0 ∧
    calls w' = [] ++ countdown_calls 5 ∧
    count_calls "-"%char (countdown_calls 5) = 5%nat ∧
    instruction s' = replicate 5 "+"%char ++ prog "[-]" ∧
    instruction_ptr_current s' = Z.of_nat 5 + 2 ∧
    instruction s' !! (5 + 2)%nat = Some "]"%char ∧
    jump_loop s' = 0 ∧
    stdout w' = [] ∧
    instruction_loop_ptr s' = (if decide (5%nat = 1%nat) then [Z.of_nat 5] else []).
Proof.
  apply (C3_countdown_loop_runs_k_times 5 7 (mk_world [] [] [])).
  - lia.
  - simpl. lia.
  - lia.
Defined.

(** * Straight-line programs

    For symbols that are not brackets, feeding a program is decoding it and
    visiting the decoded operations; the log and the ghost history grow on
    the side. *)

Lemma getchar_add_calls cs w :
  getchar (add_calls cs w) = ((getchar w).1, add_calls cs (getchar w).2).
Proof. destruct w as [i o c]. unfold getchar, add_calls. cbn. by destruct i. Qed.

Lemma visit_straight_frame run fuel op w s cs l i :
  straight op = true →
  visit run fuel op (add_calls cs w)
        (set_instruction_ptr_current i (set_instruction l s)) =
    '(w', s') ← visit run fuel op w s;
    mret (add_calls cs w', set_instruction_ptr_current i (set_instruction l s')).
Proof.
  intros Hs. destruct op; try discriminate Hs; cbn [visit]; st_simpl;
    try done; destruct (jump_loop s =? 0); try done.
  1,2,5: by destruct (tape_ref (tape s) (tape_ptr s)) as [v t].
  1,2: by destruct (int_of _).
  rewrite getchar_add_calls. destruct (getchar w) as [x w1]. cbn [fst snd].
  by destruct (tape_ref (tape s) (tape_ptr s)) as [v t].
Qed.

Lemma visit_seq_straight_frame run fuel ops : ∀ w s cs l i,
  Forall (λ op, straight op = true) ops →
  visit_seq run fuel ops (add_calls cs w)
            (set_instruction_ptr_current i (set_instruction l s)) =
    '(w', s') ← visit_seq run fuel ops w s;
    mret (add_calls cs w', set_instruction_ptr_current i (set_instruction l s')).
Proof.
  induction ops as [|op ops IH]; intros w s cs l i Hs; [done|].
  apply Forall_cons in Hs as [Hop Hs].
  cbn [visit_seq]. rewrite visit_straight_frame by done.
  destruct (visit run fuel op w s) as [[w1 s1]| |]; [|done..].
  res_simpl. by apply IH.
Qed.

Lemma next_op_fresh s c :
  in_int (instruction_ptr_current s + 1) →
  next_op s c false = Done (op_of c, log_symbols [c] s s).
Proof.
  intros Hi. unfold next_op, op_of, log_symbols, logged.
  destruct (bf_op_map !! c) as [op|] eqn:Hc; cbn [default negb].
  - st_simpl. rewrite (int_of_in _ Hi). res_simpl.
    apply bf_op_map_Some in Hc as [Hc _].
    rewrite filter_cons_True by done. by rewrite filter_nil.
  - assert (Hn : c ∉ operator_chars).
    { intros Hin. apply bf_op_map_is_Some in Hin as [? Hin]. congruence. }
    rewrite filter_cons_False by done. rewrite filter_nil.
    destruct s. st_simpl. res_simpl. cbn [length Z.of_nat].
    by rewrite Z.add_0_r, app_nil_r.
Qed.

Lemma feed_straight f p : ∀ w s,
  Forall (λ op, straight op = true) (decode p) →
  INT_MIN - 1 ≤ instruction_ptr_current s →
  instruction_ptr_current s + Z.of_nat (length p) ≤ INT_MAX →
  feed (S f) w s p =
    '(w', s') ← visit_seq (run_vm f) f (decode p) w s;
    mret (add_calls (fresh_calls p) w', log_symbols p s s').
Proof.
  induction p as [|c p IH]; intros w s Hs Hi1 Hi2.
  - cbn. rewrite add_calls_nil. destruct s. unfold log_symbols. st_simpl.
    cbn [logged filter list_filter length Z.of_nat].
    by rewrite Z.add_0_r, app_nil_r.
  - change (decode (c :: p)) with (op_of c :: decode p) in *.
    apply Forall_cons in Hs as [Hc Hs].
    cbn [length] in Hi2.
    pose proof (logged_length_le [c]) as Hlen. cbn [length] in Hlen.
    cbn [feed run_vm]. rewrite next_op_fresh by int_lia. res_simpl.
    change (log_call c false w) with (add_calls [(c, false)] w).
    unfold log_symbols at 1.
    rewrite visit_straight_frame by done.
    cbn [visit_seq].
    destruct (visit (run_vm f) f (op_of c) w s) as [[w1 s1]| |]; [|done..].
    res_simpl.
    rewrite IH; [|done|st_simpl; lia|st_simpl; lia].
    rewrite visit_seq_straight_frame by done.
    destruct (visit_seq (run_vm f) f (decode p) w1 s1) as [[w2 s2]| |];
      [|done..].
    res_simpl. rewrite add_calls_app.
    assert (Hlog : logged (c :: p) = logged [c] ++ logged p).
    { unfold logged. by rewrite (filter_app _ [c] p). }
    unfold log_symbols. st_simpl. rewrite Hlog, length_app.
    do 3 f_equal; [by rewrite app_assoc|lia].
Qed.

Lemma decode_replicate n c : decode (replicate n c) = replicate n (op_of c).
Proof. unfold decode. apply fmap_replicate. Qed.

Lemma ptr_ops_straight ops :
  ptr_ops_only ops → Forall (λ op, straight op = true) ops.
Proof.
  intros H. eapply Forall_impl; [exact H|]. by intros op [-> | ->].
Qed.

(** * Value and pointer arithmetic of programs *)

(** C5. With [jump_loop = 0], [N] value increments applied in a row to a
    zero cell are all handled without failure and leave that cell holding
    [N mod 256], for every [N], with the pointer and the other cells as they
    were. The same holds of the program made of [N] symbols [+], fed as
    fresh symbols, as long as the instruction pointer can count them. A
    single value increment stores [(v + 1) mod 256] and a single value
    decrement stores [(v - 1) mod 256] where the cell held [v], so 255 wraps
    to 0, 0 wraps to 255, and neither handler can fail. *)
Theorem C5_value_ops_wrap_mod_256 :
  ∀ run fuel (w : world) (s : brainfuck_vm_status),
    jump_loop s = 0 →
    (∀ N : nat,
        cell (tape s) (tape_ptr s) = 0 →
        ∃ s', visit_seq run fuel (replicate N increment_value_op) w s
                = Done (w, s') ∧
              cell (tape s') (tape_ptr s') = Z.of_nat N mod 256 ∧
              tape_ptr s' = tape_ptr s ∧
              (∀ q, q ≠ tape_ptr s → cell (tape s') q = cell (tape s) q)) ∧
    (∀ (N f : nat),
        cell (tape s) (tape_ptr s) = 0 →
        INT_MIN - 1 ≤ instruction_ptr_current s →
        instruction_ptr_current s + Z.of_nat N ≤ INT_MAX →
        ∃ w' s', feed (S f) w s (replicate N "+"%char) = Done (w', s') ∧
                 cell (tape s') (tape_ptr s') = Z.of_nat N mod 256 ∧
                 tape_ptr s' = tape_ptr s ∧
                 stdout w' = stdout w) ∧
    (∃ s', visit run fuel increment_value_op w s = Done (w, s') ∧
           tape_ptr s' = tape_ptr s ∧
           cell (tape s') (tape_ptr s) =
             (cell (tape s) (tape_ptr s) + 1) mod 256) ∧
    (∃ s', visit run fuel decrement_value_op w s = Done (w, s') ∧
           tape_ptr s' = tape_ptr s ∧
           cell (tape s') (tape_ptr s) =
             (cell (tape s) (tape_ptr s) - 1) mod 256).
Proof.
  intros run fuel w s Hj. split; [|split; [|split]].
  - intros N H0.
    destruct (visit_seq_increments run fuel w N s Hj)
      as (s' & Hrun & Hc & Hp & _ & Hq).
    exists s'. split; [exact Hrun|]. split; [|by split].
    rewrite Hc, H0. by destruct N.
  - intros N f H0 Hi1 Hi2.
    destruct (visit_seq_increments (run_vm f) f w N s Hj)
      as (s' & Hrun & Hc & Hp & _ & _).
    rewrite feed_straight; rewrite ?decode_replicate, ?length_replicate;
      [|by apply Forall_replicate|done..].
    change (op_of "+"%char) with increment_value_op.
    rewrite Hrun. res_simpl. eexists _, _. split; [reflexivity|].
    unfold log_symbols. st_simpl.
    split; [|by split].
    rewrite Hc, H0. by destruct N.
  - eexists. split; [by apply visit_increment_value|].
    split; [done|]. apply cell_insert_eq.
  - eexists. split; [by apply visit_decrement_value|].
    split; [done|]. apply cell_insert_eq.
Qed.

Lemma C5_witness :
  ∃ s', visit_seq (run_vm 0) 0 (replicate 300 increment_value_op)
                  (mk_world [] [] []) init_status
          = Done (mk_world [] [] [], s') ∧
        cell (tape s') (tape_ptr s') = Z.of_nat 300 mod 256 ∧
        tape_ptr s' = tape_ptr init_status ∧
        (∀ q, q ≠ tape_ptr init_status →
              cell (tape s') q = cell (tape init_status) q).
Proof.
  apply (proj1 (C5_value_ops_wrap_mod_256 (run_vm 0) 0%nat
                  (mk_world [] [] []) init_status eq_refl) 300%nat).
  reflexivity.
Defined.

(** C9. With [jump_loop = 0], take a sequence made of pointer increments
    and pointer decrements only, with as many increments as decrements.
    Whenever the visitor handles it to the end, it returns the very status
    it started from: the cell pointer is back at its original index and the
    tape, like every other field, is unchanged. And it does handle it to the
    end, without failure, however far the intermediate pointer values
    wander, positive or negative, as long as they are values of [int]. The
    same holds of a program that decodes to such a sequence, fed as fresh
    symbols: pointer and tape end as they started. *)
Theorem C9_balanced_pointer_moves_return :
  ∀ run fuel (w : world) (s : brainfuck_vm_status) (ops : list brainfuck_op),
    jump_loop s = 0 →
    ptr_ops_only ops →
    count_op increment_ptr_op ops = count_op decrement_ptr_op ops →
    (∀ x, visit_seq run fuel ops w s = Done x → x = (w, s)) ∧
    ((∀ n, in_int (tape_ptr s + ptr_net (take n ops))) →
     visit_seq run fuel ops w s = Done (w, s)) ∧
    (∀ (f : nat) (p : list ascii),
        decode p = ops →
        (∀ n, in_int (tape_ptr s + ptr_net (take n ops))) →
        INT_MIN - 1 ≤ instruction_ptr_current s →
        instruction_ptr_current s + Z.of_nat (length p) ≤ INT_MAX →
        ∃ w' s', feed (S f) w s p = Done (w', s') ∧
                 tape_ptr s' = tape_ptr s ∧
                 tape s' = tape s ∧
                 jump_loop s' = 0 ∧
                 stdout w' = stdout w).
Proof.
  intros run fuel w s ops Hj Hops Hcount.
  assert (Hnet : set_tape_ptr (tape_ptr s + ptr_net ops) s = s).
  { rewrite (ptr_net_counts ops Hops), Hcount.
    destruct s. unfold set_tape_ptr. cbn. f_equal. lia. }
  split; [|split].
  - intros x H.
    apply (visit_seq_ptr_ops_Done run fuel w ops Hops s x Hj) in H.
    by rewrite Hnet in H.
  - intros Hr.
    rewrite (visit_seq_ptr_ops run fuel w ops Hops s Hj Hr).
    by rewrite Hnet.
  - intros f p Hp Hr Hi1 Hi2. subst ops.
    rewrite feed_straight; [|by apply ptr_ops_straight|done..].
    rewrite (visit_seq_ptr_ops (run_vm f) f w _ Hops s Hj Hr), Hnet.
    res_simpl. eexists _, _. split; [reflexivity|].
    unfold log_symbols. by st_simpl.
Qed.

Lemma C9_witness :
  visit_seq (run_vm 0) 0 C9_example_ops (mk_world [] [] []) init_status
    = Done (mk_world [] [] [], init_status).
Proof.
  apply (C9_balanced_pointer_moves_return (run_vm 0) 0%nat
           (mk_world [] [] []) init_status C9_example_ops).
  - reflexivity.
  - unfold ptr_ops_only, C9_example_ops.
    repeat (apply Forall_cons_2;
            [(left; reflexivity) || (right; reflexivity)|]).
    apply Forall_nil_2.
  - reflexivity.
  - intros n. unfold in_int, INT_MIN, INT_MAX.
    do 11 (destruct n as [|n]; [vm_compute; split; discriminate|]).
    vm_compute; split; discriminate.
Defined.


(** * Further properties of the interpreter *)

(** X1. A replay call ([via_loop = true]) that returns leaves the
    instruction log and the instruction pointer exactly as it found them,
    whatever the symbol and however many nested loops it replayed. *)
Theorem replay_call_keeps_log_and_pointer :
  ∀ fuel (w : world) (s : brainfuck_vm_status) (c : ascii)
    (w' : world) (s' : brainfuck_vm_status),
    run_vm fuel w s c true = Done (w', s') →
    instruction s' = instruction s ∧
    instruction_ptr_current s' = instruction_ptr_current s.
Proof. intros fuel w s c w' s'. apply run_vm_keeps_log. Qed.

Lemma replay_call_keeps_log_and_pointer_witness :
  instruction replay_example_after = instruction replay_example_before ∧
  instruction_ptr_current replay_example_after
    = instruction_ptr_current replay_example_before.
Proof.
  apply (replay_call_keeps_log_and_pointer 5%nat (mk_world [] [] [])
           replay_example_before "]"%char
           (mk_world [] [] replay_example_calls) replay_example_after).
  vm_compute. reflexivity.
Defined.

Lemma run_vm_fresh_grow fuel w s c w' s' :
  run_vm fuel w s c false = Done (w', s') →
  instruction s' = instruction s ++ logged [c] ∧
  instruction_ptr_current s' =
    instruction_ptr_current s + Z.of_nat (length (logged [c])).
Proof.
  intros H. destruct fuel as [|fuel]; [discriminate H|].
  cbn [run_vm] in H.
  apply bind_Done in H as ([op s1] & Hn & H). res_simpl.
  apply (visit_log _ (run_vm_keeps_log fuel)) in H as [Hl Hp].
  unfold next_op in Hn. unfold logged.
  destruct (bf_op_map !! c) as [op'|] eqn:Hc.
  - cbn [negb] in Hn.
    apply bind_Done in Hn as (i & Hi & Hn).
    apply int_of_Done in Hi as [-> _].
    inversion Hn; subst op s1; clear Hn. st_simpl.
    apply bf_op_map_Some in Hc as [Hc _].
    rewrite filter_cons_True by done. rewrite filter_nil.
    by rewrite Hl, Hp.
  - inversion Hn; subst op s1; clear Hn.
    assert (Hn : c ∉ operator_chars).
    { intros Hin. apply bf_op_map_is_Some in Hin as [? Hin]. congruence. }
    rewrite filter_cons_False by done. rewrite filter_nil.
    rewrite Hl, Hp, app_nil_r. cbn [length]. split; [done|lia].
Qed.

(** X2. Whenever a program fed as fresh symbols is run to the end, the
    instruction log is the old log followed by the operator characters of
    the program, in order, and the instruction pointer has advanced by their
    number: loops replay from the log but never add to it or reorder it, and
    other characters are not logged. *)
Theorem feed_log_is_old_log_plus_operators :
  ∀ fuel (p : list ascii) (w : world) (s : brainfuck_vm_status)
    (w' : world) (s' : brainfuck_vm_status),
    feed fuel w s p = Done (w', s') →
    instruction s' = instruction s ++ logged p ∧
    instruction_ptr_current s' =
      instruction_ptr_current s + Z.of_nat (length (logged p)).
Proof.
  intros fuel p. induction p as [|c p IH]; intros w s w' s' H.
  - inversion H; subst. cbn. rewrite app_nil_r. split; [done|lia].
  - cbn [feed] in H. apply bind_Done in H as ([w1 s1] & Hr & H).
    apply run_vm_fresh_grow in Hr as [Hl1 Hp1].
    apply IH in H as [Hl Hp].
    assert (Hlog : logged (c :: p) = logged [c] ++ logged p).
    { unfold logged. by rewrite (filter_app _ [c] p). }
    rewrite Hlog, length_app, Hl, Hp, Hl1, Hp1, app_assoc.
    split; [done|lia].
Qed.

Lemma feed_log_is_old_log_plus_operators_witness :
  instruction replay_example_after = [] ++ logged (prog "+ + +[loop -]") ∧
  instruction_ptr_current replay_example_after =
    -1 + Z.of_nat (length (logged (prog "+ + +[loop -]"))).
Proof.
  apply (feed_log_is_old_log_plus_operators 6%nat (prog "+ + +[loop -]")
           (mk_world [] [] []) init_status
           (mk_world [] []
              (fresh_calls (prog "+ + +[loop -]")
               ++ [("-"%char, true); ("-"%char, true)]))
           replay_example_after).
  vm_compute. reflexivity.
Defined.

Lemma next_op_Done s c via op s1 :
  next_op s c via = Done (op, s1) →
  op = op_of c ∧
  tape s1 = tape s ∧ tape_ptr s1 = tape_ptr s ∧
  instruction_loop_ptr s1 = instruction_loop_ptr s ∧
  jump_loop s1 = jump_loop s.
Proof.
  unfold next_op, op_of. destruct (bf_op_map !! c) as [op'|]; cbn [default].
  - destruct via; cbn [negb].
    + intros H. by inversion H.
    + intros H. apply bind_Done in H as (i & _ & H). by inversion H.
  - intros H. by inversion H.
Qed.

Lemma loop_while_exit run fuel : ∀ w s w' s',
  loop_while run fuel w s = Done (w', s') →
  cell (tape s') (tape_ptr s') = 0.
Proof.
  induction fuel as [|fuel IH]; intros w s w' s' H; [discriminate H|].
  rewrite loop_while_S in H.
  pose proof (tape_ref_fst (tape s) (tape_ptr s)) as H1.
  pose proof (tape_ref_cell (tape s) (tape_ptr s) (tape_ptr s)) as H2.
  destruct (tape_ref (tape s) (tape_ptr s)) as [v t]. cbn [fst snd] in H1, H2.
  destruct (v =? 0) eqn:Hv; cbn [negb] in H.
  - apply Z.eqb_eq in Hv. inversion H; subst w' s'. st_simpl. lia.
  - apply bind_Done in H as (top & _ & H).
    apply bind_Done in H as (i & _ & H).
    apply bind_Done in H as ([w1 s1] & _ & H).
    by apply IH in H.
Qed.

(** X3. A call of [run_vm] on a loop end that is reached outside skipping
    ([jump_loop = 0]) returns only with the cell under the pointer at 0,
    fresh or replayed: the handler leaves its [while] on that condition
    alone. *)
Theorem loop_end_returns_on_zero_cell :
  ∀ fuel (w : world) (s : brainfuck_vm_status) (via_loop : bool)
    (w' : world) (s' : brainfuck_vm_status),
    jump_loop s = 0 →
    run_vm fuel w s "]"%char via_loop = Done (w', s') →
    cell (tape s') (tape_ptr s') = 0.
Proof.
  intros fuel w s via_loop w' s' Hj H.
  destruct fuel as [|fuel]; [discriminate H|]. cbn [run_vm] in H.
  apply bind_Done in H as ([op s1] & Hn & H). res_simpl.
  apply next_op_Done in Hn as (-> & Ht & Hp & _ & Hj1).
  change (op_of "]"%char) with loop_end_op in H. cbn [visit] in H.
  rewrite Hj1, Hj in H. cbn [Z.eqb negb] in H.
  pose proof (tape_ref_fst (tape s1) (tape_ptr s1)) as H1.
  pose proof (tape_ref_cell (tape s1) (tape_ptr s1) (tape_ptr s1)) as H2.
  destruct (tape_ref (tape s1) (tape_ptr s1)) as [v t]. cbn [fst snd] in H1, H2.
  destruct (v =? 0) eqn:Hv; cbn [negb] in H.
  - apply Z.eqb_eq in Hv. inversion H; subst w' s'. st_simpl. lia.
  - apply bind_Done in H as ([w2 s2] & Hw & H).
    apply bind_Done in H as (k & _ & H).
    apply loop_while_exit in Hw. by inversion H; subst w' s'.
Qed.

Lemma loop_end_returns_on_zero_cell_witness :
  cell (tape replay_example_after) (tape_ptr replay_example_after) = 0.
Proof.
  apply (loop_end_returns_on_zero_cell 5%nat (mk_world [] [] [])
           replay_example_before true
           (mk_world [] [] replay_example_calls) replay_example_after).
  - reflexivity.
  - vm_compute. reflexivity.
Defined.

Section jump_nonneg.
Variable run : world → brainfuck_vm_status → ascii → bool →
               result (world * brainfuck_vm_status).
Hypothesis Hrun : keeps_jump_nonneg run.

Lemma replay_body_jump_nonneg fuel : ∀ current w s w' s',
  0 ≤ jump_loop s →
  replay_body run fuel current w s = Done (w', s') →
  0 ≤ jump_loop s'.
Proof.
  induction fuel as [|fuel IH]; intros current w s w' s' Hj H;
    [discriminate H|].
  rewrite replay_body_S in H.
  destruct (instruction_ptr_current s <? current).
  - apply bind_Done in H as (c & _ & H).
    apply bind_Done in H as ([w1 s1] & Hr & H).
    apply bind_Done in H as (i & _ & H).
    apply Hrun in Hr; [|done]. by apply IH in H.
  - by inversion H; subst.
Qed.

Lemma loop_while_jump_nonneg fuel : ∀ w s w' s',
  0 ≤ jump_loop s →
  loop_while run fuel w s = Done (w', s') →
  0 ≤ jump_loop s'.
Proof.
  induction fuel as [|fuel IH]; intros w s w' s' Hj H; [discriminate H|].
  rewrite loop_while_S in H.
  destruct (tape_ref (tape s) (tape_ptr s)) as [v t].
  destruct (negb (v =? 0)).
  - apply bind_Done in H as (top & _ & H).
    apply bind_Done in H as (i & _ & H).
    apply bind_Done in H as ([w1 s1] & Hr & H).
    apply replay_body_jump_nonneg in Hr; [|done]. by apply IH in H.
  - by inversion H; subst.
Qed.

Lemma visit_jump_nonneg fuel op w s w' s' :
  0 ≤ jump_loop s →
  visit run fuel op w s = Done (w', s') →
  0 ≤ jump_loop s'.
Proof.
  intros Hj H. destruct op; cbn [visit] in H;
    try (destruct (jump_loop s =? 0);
         [|by inversion H; subst]).
  1,2,5: destruct (tape_ref (tape s) (tape_ptr s)) as [v t];
         by inversion H; subst.
  1,2: apply bind_Done in H as (p & _ & H); by inversion H; subst.
  - destruct (getchar w) as [x w1].
    destruct (tape_ref (tape s) (tape_ptr s)) as [v t].
    by inversion H; subst.
  - destruct (tape_ref (tape s) (tape_ptr s)) as [v t]. st_simpl.
    destruct (negb (v =? 0) && (jump_loop s =? 0)).
    + by inversion H; subst.
    + apply bind_Done in H as (j & Hi & H).
      apply int_of_Done in Hi as [-> _]. inversion H; subst. st_simpl. lia.
  - destruct (jump_loop s =? 0) eqn:Hz; cbn [negb] in H.
    + destruct (tape_ref (tape s) (tape_ptr s)) as [v t].
      destruct (negb (v =? 0)); [|by inversion H; subst].
      apply bind_Done in H as ([w1 s1] & Hr & H).
      apply bind_Done in H as (k & _ & H).
      apply loop_while_jump_nonneg in Hr; [|done].
      by inversion H; subst.
    + apply Z.eqb_neq in Hz.
      apply bind_Done in H as (j & Hi & H).
      apply int_of_Done in Hi as [-> _]. inversion H; subst. st_simpl. lia.
  - by inversion H; subst.
Qed.
End jump_nonneg.

Lemma run_vm_keeps_jump_nonneg fuel : keeps_jump_nonneg (run_vm fuel).
Proof.
  induction fuel as [|fuel IH]; intros w s c v w' s' Hj H; [discriminate H|].
  cbn [run_vm] in H.
  apply bind_Done in H as ([op s1] & Hn & H). res_simpl.
  apply next_op_Done in Hn as (_ & _ & _ & _ & Hj1).
  eapply visit_jump_nonneg; [exact IH| |exact H]. lia.
Qed.

(** X4. [jump_loop] never becomes negative: a call of [run_vm], fresh or
    replay, that starts with [jump_loop >= 0] and returns, returns with
    [jump_loop >= 0], whatever loops it ran. ([main] starts at 0, and
    [main_loop_jump_nonneg] below carries the bound through it.) *)
Theorem jump_loop_stays_nonnegative :
  ∀ fuel (w : world) (s : brainfuck_vm_status) (c : ascii) (via_loop : bool)
    (w' : world) (s' : brainfuck_vm_status),
    0 ≤ jump_loop s →
    run_vm fuel w s c via_loop = Done (w', s') →
    0 ≤ jump_loop s'.
Proof. intros fuel w s c via_loop w' s'. apply run_vm_keeps_jump_nonneg. Qed.

Lemma jump_loop_stays_nonnegative_witness :
  0 ≤ jump_loop (mk_status ∅ 0 (prog "[]") 1 [] 0).
Proof.
  apply (jump_loop_stays_nonnegative 1%nat (mk_world [] [] [])
           (mk_status ∅ 0 (prog "[") 0 [] 1) "]"%char false
           (mk_world [] [] [("]"%char, false)])
           (mk_status ∅ 0 (prog "[]") 1 [] 0)).
  - simpl. lia.
  - vm_compute. reflexivity.
Defined.

Lemma main_loop_jump_nonneg fuel : ∀ w s w' s',
  0 ≤ jump_loop s →
  main_loop fuel w s = Done (w', s') →
  0 ≤ jump_loop s'.
Proof.
  induction fuel as [|fuel IH]; intros w s w' s' Hj H; [discriminate H|].
  cbn [main_loop] in H.
  destruct (skipws (stdin w)) as [|c rest]; [by inversion H; subst|].
  apply bind_Done in H as ([w1 s1] & Hr & H).
  apply run_vm_keeps_jump_nonneg in Hr; [|done]. by apply IH in H.
Qed.

Lemma run_vm_S fuel w s c via :
  run_vm (S fuel) w s c via =
    '(op, s1) ← next_op s c via;
    visit (run_vm fuel) fuel op (log_call c via w) s1.
Proof. reflexivity. Qed.

(** X5. A loop end with no open loop ([jump_loop = 0], empty loop stack):
    on a zero cell the call returns, with the stack still empty, nothing
    read or printed, and the tape (as a total mapping) and the pointer as
    they were; on a nonzero cell the handler enters its [while] and calls
    [top()] on the empty stack, which is undefined behaviour. *)
Theorem unmatched_loop_end :
  ∀ (f : nat) (w : world) (s : brainfuck_vm_status) (via_loop : bool),
    jump_loop s = 0 →
    instruction_loop_ptr s = [] →
    in_int (instruction_ptr_current s + 1) →
    (cell (tape s) (tape_ptr s) = 0 →
     ∃ w' s', run_vm (S f) w s "]"%char via_loop = Done (w', s') ∧
              instruction_loop_ptr s' = [] ∧
              jump_loop s' = 0 ∧
              tape_ptr s' = tape_ptr s ∧
              (∀ q, cell (tape s') q = cell (tape s) q) ∧
              stdout w' = stdout w ∧ stdin w' = stdin w) ∧
    (cell (tape s) (tape_ptr s) ≠ 0 →
     run_vm (S (S f)) w s "]"%char via_loop = Undefined).
Proof.
  intros f w s via_loop Hj Hk Hi.
  assert (Hn : ∃ s1, next_op s "]"%char via_loop = Done (loop_end_op, s1) ∧
                     tape s1 = tape s ∧ tape_ptr s1 = tape_ptr s ∧
                     instruction_loop_ptr s1 = [] ∧ jump_loop s1 = 0).
  { unfold next_op. change (bf_op_map !! "]"%char) with (Some loop_end_op).
    destruct via_loop; cbn [negb].
    - by exists s.
    - st_simpl. rewrite (int_of_in _ Hi). res_simpl. eexists. by split. }
  destruct Hn as (s1 & Hn & Ht & Hp & Hk1 & Hj1).
  split; intros Hc.
  - rewrite run_vm_S, Hn. res_simpl.
    rewrite visit_loop_end_zero_cell by (rewrite ?Ht, ?Hp; done).
    eexists _, _. split; [reflexivity|]. st_simpl.
    repeat split; try done.
    intros q. by rewrite tape_ref_cell, Ht.
  - rewrite run_vm_S, Hn. res_simpl. cbn [visit].
    rewrite Hj1. cbn [Z.eqb negb]. rewrite Ht, Hp.
    rewrite (tape_ref_nonzero _ _ Hc).
    assert (Hz : (cell (tape s) (tape_ptr s) =? 0) = false)
      by (by apply Z.eqb_neq).
    rewrite Hz. cbn [negb].
    rewrite loop_while_S. st_simpl. rewrite ?Ht, ?Hp.
    rewrite (tape_ref_nonzero _ _ Hc), Hz, Hk1. by cbn.
Qed.

Lemma unmatched_loop_end_witness :
  (∃ w' s',
     run_vm 1 (mk_world [] [] []) (mk_status ∅ 0 (prog "+-") 1 [] 0)
            "]"%char false = Done (w', s') ∧
     instruction_loop_ptr s' = [] ∧
     jump_loop s' = 0 ∧
     tape_ptr s' = 0 ∧
     (∀ q, cell (tape s') q = cell ∅ q) ∧
     stdout w' = [] ∧ stdin w' = []) ∧
  run_vm 2 (mk_world [] [] []) (mk_status (<[0 := 3]> ∅) 0 (prog "+++") 2 [] 0)
         "]"%char false = Undefined.
Proof.
  assert (Hi1 : in_int (1 + 1)) by (unfold in_int, INT_MIN, INT_MAX; lia).
  assert (Hi2 : in_int (2 + 1)) by (unfold in_int, INT_MIN, INT_MAX; lia).
  split.
  - apply (proj1 (unmatched_loop_end 0%nat (mk_world [] [] [])
                    (mk_status ∅ 0 (prog "+-") 1 [] 0) false
                    eq_refl eq_refl Hi1)).
    reflexivity.
  - apply (proj2 (unmatched_loop_end 0%nat (mk_world [] [] [])
                    (mk_status (<[0 := 3]> ∅) 0 (prog "+++") 2 [] 0) false
                    eq_refl eq_refl Hi2)).
    vm_compute. discriminate.
Defined.

Lemma io_grows_refl w : io_grows w w.
Proof. by split. Qed.

Lemma io_grows_trans w1 w2 w3 :
  io_grows w1 w2 → io_grows w2 w3 → io_grows w1 w3.
Proof. intros [H1 H2] [H3 H4]. split; by etrans. Qed.

Section io_order.
Variable run : world → brainfuck_vm_status → ascii → bool →
               result (world * brainfuck_vm_status).
Hypothesis Hrun : keeps_io_order run.

Lemma replay_body_io fuel : ∀ current w s w' s',
  replay_body run fuel current w s = Done (w', s') → io_grows w w'.
Proof.
  induction fuel as [|fuel IH]; intros current w s w' s' H; [discriminate H|].
  rewrite replay_body_S in H.
  destruct (instruction_ptr_current s <? current).
  - apply bind_Done in H as (c & _ & H).
    apply bind_Done in H as ([w1 s1] & Hr & H).
    apply bind_Done in H as (i & _ & H).
    apply Hrun in Hr. apply IH in H. by eapply io_grows_trans.
  - inversion H; subst. apply io_grows_refl.
Qed.

Lemma loop_while_io fuel : ∀ w s w' s',
  loop_while run fuel w s = Done (w', s') → io_grows w w'.
Proof.
  induction fuel as [|fuel IH]; intros w s w' s' H; [discriminate H|].
  rewrite loop_while_S in H.
  destruct (tape_ref (tape s) (tape_ptr s)) as [v t].
  destruct (negb (v =? 0)).
  - apply bind_Done in H as (top & _ & H).
    apply bind_Done in H as (i & _ & H).
    apply bind_Done in H as ([w1 s1] & Hr & H).
    apply replay_body_io in Hr. apply IH in H. by eapply io_grows_trans.
  - inversion H; subst. apply io_grows_refl.
Qed.

Lemma visit_io fuel op w s w' s' :
  visit run fuel op w s = Done (w', s') → io_grows w w'.
Proof.
  intros H. destruct op; cbn [visit] in H;
    try (destruct (jump_loop s =? 0);
         [|inversion H; subst; by apply io_grows_refl]).
  1,2: destruct (tape_ref (tape s) (tape_ptr s)) as [v t];
       inversion H; subst; by apply io_grows_refl.
  1,2: apply bind_Done in H as (p & _ & H);
       inversion H; subst; by apply io_grows_refl.
  - destruct (tape_ref (tape s) (tape_ptr s)) as [v t].
    inversion H; subst. split; cbn; [by apply prefix_app_r|done].
  - unfold getchar in H. destruct (stdin w) as [|c rest] eqn:E.
    + destruct (tape_ref (tape s) (tape_ptr s)) as [v t].
      inversion H; subst. apply io_grows_refl.
    + destruct (tape_ref (tape s) (tape_ptr s)) as [v t].
      inversion H; subst. split; cbn; [done|].
      rewrite E. by apply suffix_cons_r.
  - destruct (tape_ref (tape s) (tape_ptr s)) as [v t].
    destruct (negb (v =? 0) && (jump_loop (set_tape t s) =? 0)).
    + inversion H; subst. apply io_grows_refl.
    + apply bind_Done in H as (j & _ & H).
      inversion H; subst. apply io_grows_refl.
  - destruct (negb (jump_loop s =? 0)).
    + apply bind_Done in H as (j & _ & H).
      inversion H; subst. apply io_grows_refl.
    + destruct (tape_ref (tape s) (tape_ptr s)) as [v t].
      destruct (negb (v =? 0)); [|inversion H; subst; by apply io_grows_refl].
      apply bind_Done in H as ([w1 s1] & Hr & H).
      apply bind_Done in H as (k & _ & H).
      apply loop_while_io in Hr. by inversion H; subst.
  - inversion H; subst. apply io_grows_refl.
Qed.
End io_order.

Lemma run_vm_keeps_io_order fuel : keeps_io_order (run_vm fuel).
Proof.
  induction fuel as [|fuel IH]; intros w s c v w' s' H; [discriminate H|].
  cbn [run_vm] in H.
  apply bind_Done in H as ([op s1] & _ & H). res_simpl.
  apply (visit_io _ IH) in H. destruct H as [H1 H2]. by split.
Qed.

(** X7. Output is only ever appended and input is only ever taken from the
    front: after a call of [run_vm] that returns, fresh or replay and
    through any number of loop rounds, the old output is a prefix of the new
    output and the new input is a suffix of the old input. *)
Theorem run_vm_appends_output_consumes_input :
  ∀ fuel (w : world) (s : brainfuck_vm_status) (c : ascii) (via_loop : bool)
    (w' : world) (s' : brainfuck_vm_status),
    run_vm fuel w s c via_loop = Done (w', s') →
    stdout w `prefix_of` stdout w' ∧ stdin w' `suffix_of` stdin w.
Proof. intros fuel w s c via_loop w' s'. apply run_vm_keeps_io_order. Qed.

Lemma run_vm_appends_output_consumes_input_witness :
  [3] `prefix_of` [3; 2; 1] ∧ prog "AB" `suffix_of` prog "AB".
Proof.
  apply (run_vm_appends_output_consumes_input 9%nat
           (mk_world (prog "AB") [3] [])
           (mk_status (<[0 := 2]> ∅) 0 (prog "+++[.-") 5 [3] 0) "]"%char false
           (mk_world (prog "AB") [3; 2; 1]
                     [("]"%char, false); ("."%char, true); ("-"%char, true);
                      ("."%char, true); ("-"%char, true)])
           (mk_status (<[0 := 0]> ∅) 0 (prog "+++[.-]") 6 [] 0)).
  vm_compute. reflexivity.
Defined.

Lemma op_of_loop_start c : op_of c = loop_start_op → c = "["%char.
Proof.
  unfold op_of. destruct (bf_op_map !! c) as [op|] eqn:Hc; simpl;
    [|discriminate].
  intros ->. unfold bf_op_map in Hc. apply elem_of_list_to_map_2 in Hc.
  unfold bf_op_table in Hc.
  repeat (apply elem_of_cons in Hc as [Hc|Hc]; [by inversion Hc|]).
  by apply elem_of_nil in Hc.
Qed.

Lemma vector_at_Done l i c :
  vector_at l i = Done c → 0 ≤ i ∧ l !! Z.to_nat i = Some c.
Proof.
  unfold vector_at. destruct (i <? 0) eqn:E; [discriminate|].
  apply Z.ltb_ge in E. destruct (l !! Z.to_nat i); [|discriminate].
  intros H. by inversion H.
Qed.

Lemma valid_stack_same s s' :
  instruction s' = instruction s →
  instruction_loop_ptr s' = instruction_loop_ptr s →
  valid_stack s → valid_stack s'.
Proof. unfold valid_stack. by intros -> ->. Qed.

Section stack_valid.
Variable run : world → brainfuck_vm_status → ascii → bool →
               result (world * brainfuck_vm_status).
Hypothesis Hvalid : keeps_valid_stack run.

Lemma replay_body_valid_stack fuel : ∀ current w s w' s',
  valid_stack s →
  replay_body run fuel current w s = Done (w', s') →
  valid_stack s'.
Proof.
  induction fuel as [|fuel IH]; intros current w s w' s' Hs H;
    [discriminate H|].
  rewrite replay_body_S in H.
  destruct (instruction_ptr_current s <? current).
  - apply bind_Done in H as (c & Hc & H).
    apply bind_Done in H as ([w1 s1] & Hr & H).
    apply bind_Done in H as (i & _ & H).
    apply (Hvalid _ _ _ _ _ Hs Hc) in Hr.
    apply IH in H; [done|]. by eapply valid_stack_same.
  - by inversion H; subst.
Qed.

Lemma loop_while_valid_stack fuel : ∀ w s w' s',
  valid_stack s →
  loop_while run fuel w s = Done (w', s') →
  valid_stack s'.
Proof.
  induction fuel as [|fuel IH]; intros w s w' s' Hs H; [discriminate H|].
  rewrite loop_while_S in H.
  destruct (tape_ref (tape s) (tape_ptr s)) as [v t].
  destruct (negb (v =? 0)).
  - apply bind_Done in H as (top & _ & H).
    apply bind_Done in H as (i & _ & H).
    apply bind_Done in H as ([w1 s1] & Hr & H).
    apply replay_body_valid_stack in Hr; [|by eapply valid_stack_same].
    apply IH in H; [done|]. by eapply valid_stack_same.
  - inversion H; subst. by eapply valid_stack_same.
Qed.

Lemma visit_valid_stack fuel op w s w' s' :
  valid_stack s →
  (op = loop_start_op →
   valid_origin (instruction s) (instruction_ptr_current s)) →
  visit run fuel op w s = Done (w', s') →
  valid_stack s'.
Proof.
  intros Hs Ho H. destruct op; cbn [visit] in H;
    try (destruct (jump_loop s =? 0);
         [|by inversion H; subst]).
  1,2,5: destruct (tape_ref (tape s) (tape_ptr s)) as [v t];
         inversion H; subst; by eapply valid_stack_same.
  1,2: apply bind_Done in H as (p & _ & H);
       inversion H; subst; by eapply valid_stack_same.
  - destruct (getchar w) as [x w1].
    destruct (tape_ref (tape s) (tape_ptr s)) as [v t].
    inversion H; subst. by eapply valid_stack_same.
  - destruct (tape_ref (tape s) (tape_ptr s)) as [v t].
    destruct (negb (v =? 0) && (jump_loop (set_tape t s) =? 0)).
    + inversion H; subst. unfold valid_stack in *. st_simpl.
      apply Forall_cons_2; [by apply Ho|done].
    + apply bind_Done in H as (j & _ & H).
      inversion H; subst. by eapply valid_stack_same.
  - destruct (negb (jump_loop s =? 0)).
    + apply bind_Done in H as (j & _ & H).
      inversion H; subst. by eapply valid_stack_same.
    + destruct (tape_ref (tape s) (tape_ptr s)) as [v t].
      destruct (negb (v =? 0));
        [|inversion H; subst; by eapply valid_stack_same].
      apply bind_Done in H as ([w1 s1] & Hr & H).
      apply bind_Done in H as (k & Hk & H).
      apply loop_while_valid_stack in Hr; [|by eapply valid_stack_same].
      inversion H; subst. unfold valid_stack in *. st_simpl.
      destruct (instruction_loop_ptr s1) as [|x k']; [discriminate Hk|].
      injection Hk as <-. by apply Forall_cons in Hr as [_ Hr].
  - by inversion H; subst.
Qed.
End stack_valid.

Lemma run_vm_keeps_valid_stack fuel : keeps_valid_stack (run_vm fuel).
Proof.
  induction fuel as [|fuel IH]; intros w s c w' s' Hs Hc H; [discriminate H|].
  rewrite run_vm_S in H.
  destruct (next_op_replay s c) as [op Hop].
  pose proof (next_op_Done _ _ _ _ _ Hop) as (-> & _).
  rewrite Hop in H. res_simpl.
  eapply visit_valid_stack; [exact IH|exact Hs| |exact H].
  intros Hl. apply op_of_loop_start in Hl as ->.
  by apply vector_at_Done in Hc.
Qed.

Lemma run_vm_fresh_valid_stack fuel w s c w' s' :
  valid_stack s →
  instruction_ptr_current s = Z.of_nat (length (instruction s)) - 1 →
  run_vm fuel w s c false = Done (w', s') →
  valid_stack s'.
Proof.
  intros Hs Hinv H. destruct fuel as [|fuel]; [discriminate H|].
  rewrite run_vm_S in H.
  apply bind_Done in H as ([op s1] & Hn & H). res_simpl.
  pose proof (next_op_Done _ _ _ _ _ Hn) as (-> & _).
  eapply visit_valid_stack;
    [exact (run_vm_keeps_valid_stack fuel)| | |exact H].
  - unfold next_op in Hn.
    destruct (bf_op_map !! c) as [op'|]; [|by inversion Hn; subst].
    cbn [negb] in Hn. apply bind_Done in Hn as (i & _ & Hn).
    inversion Hn; subst. unfold valid_stack in *. st_simpl.
    eapply Forall_impl; [exact Hs|].
    intros k [Hk1 Hk2]. split; [done|]. by apply lookup_app_l_Some.
  - intros Hl. apply op_of_loop_start in Hl as ->.
    unfold next_op in Hn.
    change (bf_op_map !! "["%char) with (Some loop_start_op) in Hn.
    cbn [negb] in Hn. apply bind_Done in Hn as (i & Hi & Hn).
    apply int_of_Done in Hi as [-> _]. inversion Hn; subst. st_simpl.
    split; [lia|]. apply list_lookup_middle. lia.
Qed.

(** X8. Every entry of the loop stack is the index of a loop start in the
    instruction log. The property holds of the empty stack and is kept by
    every program fed as fresh symbols to a status whose instruction
    pointer is the last log index, through all replays: what the loop-end
    handler takes from [top()] always points at a logged [[]. *)
Theorem loop_stack_entries_index_loop_starts :
  ∀ fuel (p : list ascii) (w : world) (s : brainfuck_vm_status)
    (w' : world) (s' : brainfuck_vm_status),
    valid_stack s →
    instruction_ptr_current s = Z.of_nat (length (instruction s)) - 1 →
    feed fuel w s p = Done (w', s') →
    Forall (λ k, 0 ≤ k ∧ instruction s' !! Z.to_nat k = Some "["%char)
           (instruction_loop_ptr s').
Proof.
  intros fuel p. induction p as [|c p IH]; intros w s w' s' Hs Hinv H.
  - by inversion H; subst.
  - cbn [feed] in H. apply bind_Done in H as ([w1 s1] & Hr & H).
    eapply IH; [| |exact H].
    + by eapply run_vm_fresh_valid_stack.
    + by eapply run_vm_fresh_log.
Qed.

Lemma loop_stack_entries_index_loop_starts_witness :
  Forall (λ k, 0 ≤ k ∧ prog "++[>+[-" !! Z.to_nat k = Some "["%char) [5; 2].
Proof.
  apply (loop_stack_entries_index_loop_starts 3%nat (prog "++[>+[-")
           (mk_world [] [] []) init_status
           (mk_world [] [] (fresh_calls (prog "++[>+[-")))
           (mk_status (<[1 := 0]> (<[0 := 2]> ∅)) 1 (prog "++[>+[-") 6 [5; 2] 0)).
  - apply Forall_nil_2.
  - reflexivity.
  - vm_compute. reflexivity.
Defined.

Lemma char_code_range c : 0 ≤ char_code c < 256.
Proof. unfold char_code. pose proof (N_ascii_bounded c). lia. Qed.

Lemma next_byte_range w : 0 ≤ next_byte w < 256.
Proof.
  unfold next_byte. destruct (stdin w); [lia|apply char_code_range].
Qed.

Lemma getchar_next_byte w :
  to_char (getchar w).1 = next_byte w ∧
  stdin (getchar w).2 = tail (stdin w) ∧
  stdout (getchar w).2 = stdout w.
Proof.
  unfold getchar, next_byte. destruct w as [i o c].
  destruct i as [|x i]; cbn; [done|].
  split; [|done]. unfold to_char. apply Z.mod_small, char_code_range.
Qed.

(** X6. A read followed by a print ([,.] fed as fresh symbols outside
    skipping) echoes one byte: the output grows by exactly the byte that was
    next on the input, the input loses exactly that character, and the byte
    is left in the current cell, the other cells and the pointer being
    unchanged. At end of input the byte is 255, the pattern of [EOF] stored
    in a [char], and the input stays empty. *)
Theorem read_then_print_echoes_next_byte :
  ∀ (f : nat) (w : world) (s : brainfuck_vm_status),
    jump_loop s = 0 →
    INT_MIN - 1 ≤ instruction_ptr_current s →
    instruction_ptr_current s + 2 ≤ INT_MAX →
    ∃ w' s',
      feed (S f) w s (prog ",.") = Done (w', s') ∧
      stdout w' = stdout w ++ [next_byte w] ∧
      stdin w' = tail (stdin w) ∧
      tape_ptr s' = tape_ptr s ∧
      cell (tape s') (tape_ptr s) = next_byte w ∧
      (∀ q, q ≠ tape_ptr s → cell (tape s') q = cell (tape s) q).
Proof.
  intros f w s Hj Hi1 Hi2.
  rewrite feed_straight; [|repeat constructor|done|exact Hi2].
  change (decode (prog ",.")) with [read_op; print_op].
  cbn [visit_seq visit]. rewrite Hj. cbn [Z.eqb].
  destruct (getchar_next_byte w) as (Hb & Hin & Hout).
  destruct (getchar w) as [x w1]. cbn [fst snd] in Hb, Hin, Hout.
  pose proof (tape_ref_insert (tape s) (tape_ptr s) (to_char x)) as Hins.
  destruct (tape_ref (tape s) (tape_ptr s)) as [v t]. cbn [snd] in Hins.
  res_simpl. st_simpl. rewrite Hins.
  unfold tape_ref. rewrite lookup_insert_eq, Hj. cbn [Z.eqb]. res_simpl.
  eexists _, _. split; [reflexivity|].
  unfold log_symbols, add_calls, putc. st_simpl.
  rewrite Hout, Hin, <- Hb.
  repeat split; try done.
  - apply cell_insert_eq.
  - intros q Hq. by apply cell_insert_ne.
Qed.

Lemma read_then_print_echoes_next_byte_witness :
  ∃ w' s',
    feed 1 (mk_world (prog "Hi") [] []) init_status (prog ",.") = Done (w', s') ∧
    stdout w' = [] ++ [next_byte (mk_world (prog "Hi") [] [])] ∧
    stdin w' = tail (prog "Hi") ∧
    tape_ptr s' = 0 ∧
    cell (tape s') 0 = next_byte (mk_world (prog "Hi") [] []) ∧
    (∀ q, q ≠ 0 → cell (tape s') q = cell ∅ q).
Proof.
  apply (read_then_print_echoes_next_byte 0%nat
           (mk_world (prog "Hi") [] []) init_status).
  - reflexivity.
  - unfold INT_MIN. simpl. lia.
  - unfold INT_MAX. simpl. lia.
Defined.

Lemma skipws_app_spaces ws l :
  Forall (λ c, isspace c = true) ws → skipws (ws ++ l) = skipws l.
Proof.
  induction 1 as [|c ws Hc _ IH]; [done|].
  cbn [app skipws]. by rewrite Hc.
Qed.

Lemma main_loop_stdin_empty fuel : ∀ w s w' s',
  main_loop fuel w s = Done (w', s') → stdin w' = [].
Proof.
  induction fuel as [|fuel IH]; intros w s w' s' H; [discriminate H|].
  cbn [main_loop] in H.
  destruct (skipws (stdin w)) as [|c rest]; [by inversion H; subst|].
  apply bind_Done in H as ([w1 s1] & _ & H). by apply IH in H.
Qed.

(** X11. [main] and white space at the edges of the input: white space in
    front of the input changes nothing at all; an input that is empty or all
    white space makes [main] return at once with the initial status and no
    output; and whenever [main] returns, it has read the input to its
    end. *)
Theorem main_white_space_and_end_of_input :
  ∀ (ws input : list ascii),
    Forall (λ c, isspace c = true) ws →
    (∀ fuel, main fuel (ws ++ input) = main fuel input) ∧
    (∀ fuel, main (S fuel) ws = Done (mk_world [] [] [], init_status)) ∧
    (∀ fuel w s, main fuel (ws ++ input) = Done (w, s) → stdin w = []).
Proof.
  intros ws input Hws. split; [|split].
  - intros [|fuel]; [done|]. unfold main. cbn [main_loop stdin].
    by rewrite skipws_app_spaces.
  - intros fuel. unfold main. cbn [main_loop stdin].
    rewrite <- (app_nil_r ws), skipws_app_spaces by done. by cbn.
  - intros fuel w s H. unfold main in H. by apply main_loop_stdin_empty in H.
Qed.

Lemma main_white_space_and_end_of_input_witness :
  (∀ fuel, main fuel ([" "; "010"; "009"]%char ++ prog "+.")
           = main fuel (prog "+.")) ∧
  (∀ fuel, main (S fuel) [" "; "010"; "009"]%char
           = Done (mk_world [] [] [], init_status)) ∧
  (∀ fuel w s, main fuel ([" "; "010"; "009"]%char ++ prog "+.") = Done (w, s) →
               stdin w = []).
Proof.
  apply (main_white_space_and_end_of_input
           [" "; "010"; "009"]%char (prog "+.")).
  repeat (apply Forall_cons_2; [reflexivity|]). apply Forall_nil_2.
Defined.

Lemma visit_seq_value_ops run fuel w ops :
  value_ops_only ops →
  ∀ s, jump_loop s = 0 →
    ∃ s', visit_seq run fuel ops w s = Done (w, s') ∧
          to_char (cell (tape s') (tape_ptr s)) =
            to_char (cell (tape s) (tape_ptr s) + val_net ops) ∧
          (ops ≠ [] → 0 ≤ cell (tape s') (tape_ptr s) < 256) ∧
          (ops = [] → s' = s) ∧
          (∀ q, q ≠ tape_ptr s → cell (tape s') q = cell (tape s) q) ∧
          tape_ptr s' = tape_ptr s ∧
          instruction s' = instruction s ∧
          instruction_ptr_current s' = instruction_ptr_current s ∧
          instruction_loop_ptr s' = instruction_loop_ptr s ∧
          jump_loop s' = 0.
Proof.
  induction 1 as [|op ops Hop _ IH]; intros s Hj.
  - exists s. cbn. rewrite Z.add_0_r. by repeat split.
  - assert (Hstep : ∃ d, (∀ l, val_net (op :: l) = d + val_net l) ∧
               visit run fuel op w s =
                 Done (w, set_tape (<[tape_ptr s :=
                        to_char (cell (tape s) (tape_ptr s) + d)]> (tape s)) s)).
    { destruct Hop as [-> | ->].
      - exists 1. split; [done|]. by apply visit_increment_value.
      - exists (-1). split; [done|]. by apply visit_decrement_value. }
    destruct Hstep as (d & Hcons & Hv).
    cbn [visit_seq]. rewrite Hv. res_simpl.
    set (s1 := set_tape _ s).
    destruct (IH s1 Hj) as (s' & Hrun & Hc & Hb & He & Hq & Hp & Hl & Hi & Hk & Hj').
    exists s'. split; [exact Hrun|].
    assert (Hc1 : cell (tape s1) (tape_ptr s) =
                  to_char (cell (tape s) (tape_ptr s) + d))
      by apply cell_insert_eq.
    change (tape_ptr s1) with (tape_ptr s) in *.
    split; [|split; [|split; [done|split; [|by repeat split]]]].
    + rewrite Hc, Hc1, Hcons. unfold to_char.
      rewrite Zplus_mod_idemp_l. f_equal. lia.
    + intros _. destruct ops as [|op' ops'].
      * rewrite (He eq_refl), Hc1. unfold to_char.
        apply Z.mod_pos_bound. lia.
      * by apply Hb.
    + intros q Hne. rewrite Hq by done. by apply cell_insert_ne.
Qed.

(** X12. Value increments and decrements compose modulo 256: outside
    skipping, a sequence of value increments and decrements whose net sum
    is a multiple of 256 ([+-], [-+], 256 times [+], a detour through the
    wrap at 0 or 255) is handled without failure and leaves a tape of
    byte-valued cells unchanged as a total mapping, along with every other
    field of the status. *)
Theorem value_ops_netting_to_zero_restore_tape :
  ∀ run fuel (w : world) (s : brainfuck_vm_status) (ops : list brainfuck_op),
    jump_loop s = 0 →
    value_ops_only ops →
    val_net ops mod 256 = 0 →
    0 ≤ cell (tape s) (tape_ptr s) < 256 →
    ∃ s', visit_seq run fuel ops w s = Done (w, s') ∧
          (∀ q, cell (tape s') q = cell (tape s) q) ∧
          tape_ptr s' = tape_ptr s ∧
          instruction s' = instruction s ∧
          instruction_ptr_current s' = instruction_ptr_current s ∧
          instruction_loop_ptr s' = instruction_loop_ptr s ∧
          jump_loop s' = jump_loop s.
Proof.
  intros run fuel w s ops Hj Hops Hnet Hbyte.
  destruct (visit_seq_value_ops run fuel w ops Hops s Hj)
    as (s' & Hrun & Hc & Hb & He & Hq & Hp & Hl & Hi & Hk & Hj').
  exists s'. split; [exact Hrun|].
  split; [|by rewrite Hj; repeat split].
  intros q. destruct (decide (q = tape_ptr s)) as [->|Hne]; [|by apply Hq].
  destruct ops as [|op ops']; [by rewrite (He eq_refl)|].
  specialize (Hb ltac:(done)).
  unfold to_char in Hc. rewrite Z.add_mod, Hnet, Z.add_0_r in Hc by lia.
  rewrite Z.mod_mod in Hc by lia.
  rewrite !Z.mod_small in Hc by lia. exact Hc.
Qed.

Lemma value_ops_netting_to_zero_restore_tape_witness :
  ∃ s', visit_seq (run_vm 0) 0 wrap_example_ops (mk_world [] [] [])
                  wrap_example_status
          = Done (mk_world [] [] [], s') ∧
        (∀ q, cell (tape s') q = cell (tape wrap_example_status) q) ∧
        tape_ptr s' = tape_ptr wrap_example_status ∧
        instruction s' = instruction wrap_example_status ∧
        instruction_ptr_current s'
          = instruction_ptr_current wrap_example_status ∧
        instruction_loop_ptr s' = instruction_loop_ptr wrap_example_status ∧
        jump_loop s' = jump_loop wrap_example_status.
Proof.
  apply (value_ops_netting_to_zero_restore_tape (run_vm 0) 0%nat
           (mk_world [] [] []) wrap_example_status wrap_example_ops).
  - reflexivity.
  - unfold value_ops_only, wrap_example_ops.
    do 2 (apply Forall_cons_2; [right; reflexivity|]).
    apply Forall_replicate. cbv beta. left. reflexivity.
  - reflexivity.
  - vm_compute. split; [discriminate|reflexivity].
Defined.

(** * Replaying a body without brackets *)

Lemma next_op_replay_op s c : next_op s c true = Done (op_of c, s).
Proof. unfold next_op, op_of. by destruct (bf_op_map !! c). Qed.

Lemma set_log_id s :
  set_instruction_ptr_current (instruction_ptr_current s)
    (set_instruction (instruction s) s) = s.
Proof. by destruct s. Qed.

Lemma replay_body_straight fr body : ∀ fuel w s (pre post : list ascii),
  Forall (λ op, straight op = true) (decode body) →
  instruction s = pre ++ body ++ post →
  instruction_ptr_current s = Z.of_nat (length pre) →
  Z.of_nat (length pre) + Z.of_nat (length body) ≤ INT_MAX →
  (length body + 1 ≤ fuel)%nat →
  replay_body (run_vm (S fr)) fuel
              (Z.of_nat (length pre) + Z.of_nat (length body)) w s =
    '(w', s') ← visit_seq (run_vm fr) fr (decode body) w s;
    mret (add_calls (replay_calls body) w',
          set_instruction_ptr_current
            (Z.of_nat (length pre) + Z.of_nat (length body))
            (set_instruction (instruction s) s')).
Proof.
  induction body as [|c body IH]; intros fuel w s pre post Hs Hl Hi Hmax Hf;
    (destruct fuel as [|fuel]; [cbn [length] in Hf; lia|]);
    rewrite replay_body_S.
  - cbn [length Z.of_nat]. rewrite Z.add_0_r, Hi, Z.ltb_irrefl.
    cbn. rewrite add_calls_nil, <- Hi. by rewrite set_log_id.
  - change (decode (c :: body)) with (op_of c :: decode body) in *.
    apply Forall_cons in Hs as [Hc Hs]. cbn [length] in Hmax, Hf.
    assert (Hlt : (instruction_ptr_current s
                   <? Z.of_nat (length pre) + Z.of_nat (length (c :: body)))
                  = true) by (apply Z.ltb_lt; cbn [length]; lia).
    rewrite Hlt. unfold vector_at.
    assert (Hge : (instruction_ptr_current s <? 0) = false)
      by (apply Z.ltb_ge; lia).
    rewrite Hge, Hi, Nat2Z.id, Hl.
    rewrite (list_lookup_middle pre (body ++ post) c) by done.
    res_simpl. rewrite run_vm_S, next_op_replay_op. res_simpl.
    change (log_call c true w) with (add_calls [(c, true)] w).
    rewrite <- (set_log_id s) at 1.
    rewrite visit_straight_frame by done. cbn [visit_seq].
    destruct (visit (run_vm fr) fr (op_of c) w s) as [[w1 s1]| |]; [|done..].
    res_simpl. st_simpl. rewrite Hi.
    rewrite (int_of_in (Z.of_nat (length pre) + 1)) by int_lia. res_simpl.
    replace (Z.of_nat (length pre) + Z.of_nat (length (c :: body)))
      with (Z.of_nat (length (pre ++ [c])) + Z.of_nat (length body))
      by (rewrite length_app; cbn [length]; lia).
    rewrite (IH fuel _ _ (pre ++ [c]) post); st_simpl;
      [|done|by rewrite Hl, <- app_assoc
        |rewrite length_app; cbn [length]; lia
        |rewrite length_app; cbn [length]; lia|lia].
    pose proof (visit_seq_straight_frame (run_vm fr) fr (decode body)
                  w1 s1 [(c, true)] (instruction s)
                  (Z.of_nat (length pre) + 1) Hs) as Hframe.
    unfold set_instruction_ptr_current, set_instruction in Hframe.
    cbn [tape tape_ptr instruction instruction_ptr_current
         instruction_loop_ptr jump_loop] in Hframe.
    rewrite Hframe.
    destruct (visit_seq (run_vm fr) fr (decode body) w1 s1) as [[w2 s2]| |];
      [|done..].
    res_simpl. st_simpl. rewrite add_calls_app, ?Hl. done.
Qed.

(** One round of the loop-end [while] over a logged body without brackets:
    the body's operations are visited, then the [while] goes on. *)
Lemma loop_while_straight_round fr fuel w t p l top stk
    (pre body post : list ascii) :
  l = pre ++ body ++ post →
  Z.of_nat (length pre) = top + 1 →
  Forall (λ op, straight op = true) (decode body) →
  cell t p ≠ 0 →
  top + 1 + Z.of_nat (length body) ≤ INT_MAX →
  (length body + 1 ≤ fuel)%nat →
  loop_while (run_vm (S fr)) (S fuel) w
    (mk_status t p l (top + 1 + Z.of_nat (length body)) (top :: stk) 0) =
    '(w1, s1) ← visit_seq (run_vm fr) fr (decode body) w
                  (mk_status t p l (top + 1) (top :: stk) 0);
    loop_while (run_vm (S fr)) fuel (add_calls (replay_calls body) w1)
      (set_instruction_ptr_current (top + 1 + Z.of_nat (length body))
         (set_instruction l s1)).
Proof.
  intros Hl Hpre Hs Hc Hmax Hf.
  rewrite loop_while_S. st_simpl. rewrite (tape_ref_nonzero _ _ Hc).
  apply Z.eqb_neq in Hc. rewrite Hc. cbn [negb stack_top]. res_simpl.
  rewrite (int_of_in (top + 1)) by int_lia. res_simpl.
  rewrite <- Hpre.
  rewrite (replay_body_straight fr body fuel w _ pre post); st_simpl;
    [|done|done|lia|lia|done].
  rewrite Hpre.
  destruct (visit_seq (run_vm fr) fr (decode body) w
              (mk_status t p l (top + 1) (top :: stk) 0)) as [[w1 s1]| |];
    [|done..].
  res_simpl. by st_simpl.
Qed.

Lemma visit_dec_mk run fuel w t p l i k :
  visit run fuel decrement_value_op w (mk_status t p l i k 0) =
    Done (w, mk_status (<[p := to_char (cell t p - 1)]> t) p l i k 0).
Proof. by rewrite visit_decrement_value. Qed.

Lemma visit_inc_mk run fuel w t p l i k :
  visit run fuel increment_value_op w (mk_status t p l i k 0) =
    Done (w, mk_status (<[p := to_char (cell t p + 1)]> t) p l i k 0).
Proof. by rewrite visit_increment_value. Qed.

Lemma visit_right_mk run fuel w t p l i k :
  in_int (p + 1) →
  visit run fuel increment_ptr_op w (mk_status t p l i k 0) =
    Done (w, mk_status t (p + 1) l i k 0).
Proof. intros H. cbn [visit]. st_simpl. cbn [Z.eqb]. by rewrite int_of_in. Qed.

Lemma visit_left_mk run fuel w t p l i k :
  in_int (p - 1) →
  visit run fuel decrement_ptr_op w (mk_status t p l i k 0) =
    Done (w, mk_status t (p - 1) l i k 0).
Proof. intros H. cbn [visit]. st_simpl. cbn [Z.eqb]. by rewrite int_of_in. Qed.

Lemma run_vm_loop_end_enter f w t p l i stk :
  in_int (i + 1) →
  cell t p ≠ 0 →
  run_vm (S f) w (mk_status t p l i stk 0) "]"%char false =
    '(w1, s1) ← loop_while (run_vm f) f (add_calls [("]"%char, false)] w)
                  (mk_status t p (l ++ ["]"%char]) (i + 1) stk 0);
    k ← stack_pop (instruction_loop_ptr s1);
    mret (w1, set_instruction_loop_ptr k s1).
Proof.
  intros Hi Hc. rewrite run_vm_S. unfold next_op.
  change (bf_op_map !! "]"%char) with (Some loop_end_op).
  cbn [negb]. st_simpl. rewrite (int_of_in _ Hi). res_simpl.
  cbn [visit]. st_simpl. cbn [Z.eqb negb].
  rewrite (tape_ref_nonzero _ _ Hc).
  apply Z.eqb_neq in Hc. by rewrite Hc.
Qed.

Lemma run_vm_loop_end_zero f w t p l i stk :
  in_int (i + 1) →
  cell t p = 0 →
  run_vm (S f) w (mk_status t p l i stk 0) "]"%char false =
    Done (add_calls [("]"%char, false)] w,
          mk_status (tape_ref t p).2 p (l ++ ["]"%char]) (i + 1) stk 0).
Proof.
  intros Hi Hc. rewrite run_vm_S. unfold next_op.
  change (bf_op_map !! "]"%char) with (Some loop_end_op).
  cbn [negb]. st_simpl. rewrite (int_of_in _ Hi). res_simpl.
  by rewrite visit_loop_end_zero_cell.
Qed.

(** The rounds of [[-]] after the fresh pass, with the cells accounted
    for. *)
Lemma loop_while_clear fr (j : nat) : ∀ fuel w t p pre top stk post,
  (j + 2 ≤ fuel)%nat →
  cell t p = Z.of_nat j →
  Z.of_nat j < 256 →
  Z.of_nat (length pre) = top + 1 →
  top + 2 ≤ INT_MAX →
  ∃ t',
    loop_while (run_vm (S fr)) fuel w
      (mk_status t p (pre ++ ["-"%char] ++ post) (top + 1 + 1) (top :: stk) 0) =
      Done (add_calls (replicate j ("-"%char, true)) w,
            mk_status t' p (pre ++ ["-"%char] ++ post) (top + 1 + 1)
                      (top :: stk) 0) ∧
    cell t' p = 0 ∧
    (∀ q, q ≠ p → cell t' q = cell t q).
Proof.
  induction j as [|j IH]; intros fuel w t p pre top stk post Hf Hc Hj Hpre Hmax;
    (destruct fuel as [|fuel]; [lia|]).
  - rewrite loop_while_S. st_simpl.
    pose proof (tape_ref_fst t p) as H1.
    pose proof (tape_ref_cell t p) as H2.
    destruct (tape_ref t p) as [v t0]. cbn [fst snd] in H1, H2.
    rewrite H1, Hc. cbn [Z.of_nat Z.eqb negb]. res_simpl.
    exists t0. rewrite add_calls_nil. split; [done|].
    split; [by rewrite H2, Hc|]. intros q _. apply H2.
  - rewrite (loop_while_straight_round fr fuel w t p _ top stk
               pre ["-"%char] post);
      [|done|done|repeat constructor|lia|cbn [length]; lia|cbn [length]; lia].
    change (decode ["-"%char]) with [decrement_value_op].
    cbn [visit_seq]. rewrite visit_dec_mk. res_simpl. st_simpl.
    destruct (IH fuel (add_calls (replay_calls ["-"%char]) w)
                 (<[p := to_char (cell t p - 1)]> t) p pre top stk post)
      as (t' & Hw & Hc' & Hq); [lia| |lia|done|done|].
    { rewrite cell_insert_eq, Hc. unfold to_char.
      rewrite Z.mod_small by lia. lia. }
    exists t'. change (Z.of_nat (length ["-"%char])) with 1.
    rewrite Hw, add_calls_app. split; [done|]. split; [done|].
    intros q Hne. rewrite Hq by done. by apply cell_insert_ne.
Qed.

(** X9. The clearing loop [[-]], fed as fresh symbols to any status outside
    skipping whose instruction pointer is the last log index, with the
    current cell holding [v] (0 <= v < 256) and fuel from [v + 2] on:
    the run finishes with the current cell at 0, every other cell, the
    pointer, the input and the output untouched, [jump_loop] at 0 and the
    three symbols logged. The loop stack is as before, except for [v = 1]:
    then the loop end finds the cell already 0 and the index of the loop
    start stays on the stack. *)
Theorem clear_loop_zeroes_current_cell :
  ∀ (v fuel : nat) (w : world) (s : brainfuck_vm_status),
    jump_loop s = 0 →
    instruction_ptr_current s = Z.of_nat (length (instruction s)) - 1 →
    cell (tape s) (tape_ptr s) = Z.of_nat v →
    Z.of_nat v < 256 →
    Z.of_nat (length (instruction s)) + 2 ≤ INT_MAX →
    (v + 2 ≤ fuel)%nat →
    ∃ w' s',
      feed fuel w s (prog "[-]") = Done (w', s') ∧
      cell (tape s') (tape_ptr s') = 0 ∧
      tape_ptr s' = tape_ptr s ∧
      (∀ q, q ≠ tape_ptr s → cell (tape s') q = cell (tape s) q) ∧
      stdout w' = stdout w ∧ stdin w' = stdin w ∧
      jump_loop s' = 0 ∧
      instruction s' = instruction s ++ prog "[-]" ∧
      instruction_ptr_current s' = instruction_ptr_current s + 3 ∧
      instruction_loop_ptr s' =
        (if decide (v = 1%nat)
         then (instruction_ptr_current s + 1) :: instruction_loop_ptr s
         else instruction_loop_ptr s).
Proof.
  intros v fuel w s Hj Hinv Hc Hv Hmax Hfuel.
  destruct fuel as [|f]; [lia|].
  destruct v as [|v].
  - (* the loop is skipped *)
    destruct (run_vm_loop_start_zero f w s Hj Hc)
      as (w1 & s1 & Hr1 & Hin1 & Hout1 & Hcell1 & Hp1 & Hk1 & Hj1 & Hl1 & Hip1);
      [int_lia|].
    destruct (run_vm_skip_step f w1 s1 "-"%char)
      as (w2 & s2 & Hr2 & Hin2 & Hout2 & Hcell2 & Hp2 & Hk2 & Hj2 & Hl2 & Hip2);
      [lia|int_lia|int_lia|].
    change (bracket_delta "-"%char) with 0 in Hj2.
    change (logged ["-"%char]) with ["-"%char] in Hl2, Hip2.
    cbn [length] in Hip2.
    destruct (run_vm_skip_step f w2 s2 "]"%char)
      as (w3 & s3 & Hr3 & Hin3 & Hout3 & Hcell3 & Hp3 & Hk3 & Hj3 & Hl3 & Hip3);
      [lia|int_lia|int_lia|].
    change (bracket_delta "]"%char) with (-1) in Hj3.
    change (logged ["]"%char]) with ["]"%char] in Hl3, Hip3.
    cbn [length] in Hip3.
    exists w3, s3. cbn [prog list_ascii_of_string feed].
    rewrite Hr1. res_simpl. rewrite Hr2. res_simpl. rewrite Hr3. res_simpl.
    split; [done|].
    split; [by rewrite Hp3, Hp2, Hp1, Hcell3, Hcell2, Hcell1|].
    split; [congruence|].
    split; [intros q _; by rewrite Hcell3, Hcell2, Hcell1|].
    split; [congruence|]. split; [congruence|].
    split; [lia|].
    split; [by rewrite Hl3, Hl2, Hl1, <- !app_assoc|].
    split; [lia|].
    rewrite decide_False by discriminate. congruence.
  - (* the body runs once fresh, then [v] times from the log *)
    destruct s as [t p l i stk j]. st_simpl. subst i j.
    cbn [prog list_ascii_of_string feed].
    rewrite run_vm_loop_start_nonzero by (int_lia || lia). res_simpl.
    rewrite run_vm_minus by int_lia. res_simpl.
    set (t1 := <[p := to_char (cell t p - 1)]> t).
    assert (Hc1 : cell t1 p = Z.of_nat v).
    { unfold t1. rewrite cell_insert_eq, Hc. unfold to_char.
      rewrite Z.mod_small by lia. lia. }
    assert (Hq1 : ∀ q, q ≠ p → cell t1 q = cell t q).
    { intros q Hne. unfold t1. by apply cell_insert_ne. }
    destruct v as [|v].
    + rewrite run_vm_loop_end_zero by (int_lia || done). res_simpl.
      eexists _, _. split; [reflexivity|]. st_simpl.
      split; [by rewrite tape_ref_cell|]. split; [done|].
      split; [intros q Hne; rewrite tape_ref_cell; by apply Hq1|].
      split; [done|]. split; [done|]. split; [done|].
      split; [by rewrite <- !app_assoc|]. split; [lia|done].
    + rewrite run_vm_loop_end_enter by (int_lia || lia).
      destruct f as [|fr]; [lia|].
      rewrite <- (app_assoc (l ++ ["["%char]) ["-"%char] ["]"%char]).
      destruct (loop_while_clear fr (S v) (S fr)
                  (add_calls [("]"%char, false)]
                     (add_calls [("-"%char, false)]
                        (add_calls [("["%char, false)] w)))
                  t1 p (l ++ ["["%char])
                  (Z.of_nat (length l) - 1 + 1) stk ["]"%char])
        as (t' & Hw & Hc' & Hq'); [lia|done|lia| |int_lia|].
      { rewrite length_app. cbn [length]. lia. }
      rewrite Hw. res_simpl. st_simpl.
      change (stack_pop (Z.of_nat (length l) - 1 + 1 :: stk)) with (Done stk).
      res_simpl. eexists _, _. split; [reflexivity|]. st_simpl.
      split; [done|]. split; [done|].
      split; [intros q Hne; rewrite Hq' by done; by apply Hq1|].
      split; [done|]. split; [done|]. split; [done|].
      split; [by rewrite <- !app_assoc|]. split; [lia|].
      by rewrite decide_False by lia.
Qed.

Lemma clear_loop_zeroes_current_cell_witness :
  ∃ w' s',
    feed 202 (mk_world [] [] []) clear_example_status (prog "[-]") = Done (w', s') ∧
    cell (tape s') (tape_ptr s') = 0 ∧
    tape_ptr s' = tape_ptr clear_example_status ∧
    (∀ q, q ≠ tape_ptr clear_example_status →
          cell (tape s') q = cell (tape clear_example_status) q) ∧
    stdout w' = stdout (mk_world [] [] []) ∧
    stdin w' = stdin (mk_world [] [] []) ∧
    jump_loop s' = 0 ∧
    instruction s' = instruction clear_example_status ++ prog "[-]" ∧
    instruction_ptr_current s' = instruction_ptr_current clear_example_status + 3 ∧
    instruction_loop_ptr s' =
      (if decide (200%nat = 1%nat)
       then (instruction_ptr_current clear_example_status + 1)
              :: instruction_loop_ptr clear_example_status
       else instruction_loop_ptr clear_example_status).
Proof.
  apply (clear_loop_zeroes_current_cell 200 202 (mk_world [] [] [])
           clear_example_status).
  - reflexivity.
  - reflexivity.
  - reflexivity.
  - simpl. lia.
  - unfold INT_MAX. simpl. lia.
  - lia.
Defined.

(** * The loop [[->+<]] *)

Lemma visit_seq_move run fuel w t p l i k :
  INT_MIN ≤ p → p + 1 ≤ INT_MAX →
  visit_seq run fuel (decode (prog "->+<")) w (mk_status t p l i k 0) =
    Done (w, mk_status
               (<[p + 1 := to_char (cell t (p + 1) + 1)]>
                  (<[p := to_char (cell t p - 1)]> t))
               p l i k 0).
Proof.
  intros Hp1 Hp2.
  change (decode (prog "->+<"))
    with [decrement_value_op; increment_ptr_op;
          increment_value_op; decrement_ptr_op].
  cbn [visit_seq]. rewrite visit_dec_mk. res_simpl.
  rewrite visit_right_mk by int_lia. res_simpl.
  rewrite visit_inc_mk. res_simpl.
  rewrite visit_left_mk by int_lia. res_simpl.
  rewrite cell_insert_ne by lia.
  replace (p + 1 - 1) with p by lia. done.
Qed.

Lemma move_body_straight :
  Forall (λ op, straight op = true) (decode (prog "->+<")).
Proof.
  change (decode (prog "->+<"))
    with [decrement_value_op; increment_ptr_op;
          increment_value_op; decrement_ptr_op].
  repeat (apply Forall_cons_2; [reflexivity|]). apply Forall_nil_2.
Qed.

Lemma loop_while_move fr (j : nat) : ∀ fuel w t p pre top cur stk post,
  (j + 5 ≤ fuel)%nat →
  cell t p = Z.of_nat j →
  Z.of_nat j < 256 →
  0 ≤ cell t (p + 1) < 256 →
  INT_MIN ≤ p → p + 1 ≤ INT_MAX →
  Z.of_nat (length pre) = top + 1 →
  cur = top + 1 + 4 →
  cur ≤ INT_MAX →
  ∃ t',
    loop_while (run_vm (S fr)) fuel w
      (mk_status t p (pre ++ prog "->+<" ++ post) cur (top :: stk) 0) =
      Done (add_calls (concat (replicate j (replay_calls (prog "->+<")))) w,
            mk_status t' p (pre ++ prog "->+<" ++ post) cur (top :: stk) 0) ∧
    cell t' p = 0 ∧
    cell t' (p + 1) = (cell t (p + 1) + Z.of_nat j) mod 256 ∧
    (∀ q, q ≠ p → q ≠ p + 1 → cell t' q = cell t q).
Proof.
  induction j as [|j IH];
    intros fuel w t p pre top cur stk post Hf Hc Hj Hu Hp1 Hp2 Hpre -> Hmax;
    (destruct fuel as [|fuel]; [lia|]).
  - rewrite loop_while_S. st_simpl.
    pose proof (tape_ref_fst t p) as H1.
    pose proof (tape_ref_cell t p) as H2.
    destruct (tape_ref t p) as [v t0]. cbn [fst snd] in H1, H2.
    rewrite H1, Hc. cbn [Z.of_nat Z.eqb negb]. res_simpl.
    exists t0. cbn [replicate concat]. rewrite add_calls_nil.
    split; [done|]. split; [by rewrite H2, Hc|].
    split; [|intros q _ _; apply H2].
    rewrite H2, Z.add_0_r, Z.mod_small; [done|lia].
  - change 4 with (Z.of_nat (length (prog "->+<"))).
    rewrite (loop_while_straight_round fr fuel w t p _ top stk
               pre (prog "->+<") post);
      [|done|done|exact move_body_straight|lia
       |change (length (prog "->+<")) with 4%nat; lia
       |change (length (prog "->+<")) with 4%nat; lia].
    rewrite visit_seq_move by done. res_simpl. st_simpl.
    set (t2 := <[p + 1 := to_char (cell t (p + 1) + 1)]>
                 (<[p := to_char (cell t p - 1)]> t)).
    assert (Hc2 : cell t2 p = Z.of_nat j).
    { unfold t2. rewrite cell_insert_ne by lia.
      rewrite cell_insert_eq, Hc. unfold to_char.
      rewrite Z.mod_small by lia. lia. }
    assert (Hu2 : cell t2 (p + 1) = (cell t (p + 1) + 1) mod 256).
    { unfold t2. by rewrite cell_insert_eq. }
    destruct (IH fuel (add_calls (replay_calls (prog "->+<")) w)
                 t2 p pre top (top + 1 + 4) stk post)
      as (t' & Hw & Hc' & Hu' & Hq'); [lia|done|lia| |done..|].
    { rewrite Hu2. apply Z.mod_pos_bound. lia. }
    exists t'. change (Z.of_nat (length (prog "->+<"))) with 4.
    rewrite Hw, add_calls_app. split; [done|]. split; [done|].
    split.
    + rewrite Hu', Hu2, Zplus_mod_idemp_l. f_equal. lia.
    + intros q Hn1 Hn2. rewrite Hq' by done. unfold t2.
      rewrite cell_insert_ne by lia. by rewrite cell_insert_ne by lia.
Qed.

Lemma feed_move_body f w t p l i stk :
  INT_MIN ≤ p → p + 1 ≤ INT_MAX →
  -1 ≤ i → i + 4 ≤ INT_MAX →
  feed (S f) w (mk_status t p l i stk 0) (prog "->+<") =
    Done (add_calls (fresh_calls (prog "->+<")) w,
          mk_status (<[p + 1 := to_char (cell t (p + 1) + 1)]>
                       (<[p := to_char (cell t p - 1)]> t))
                    p (l ++ prog "->+<") (i + 4) stk 0).
Proof.
  intros Hp1 Hp2 Hi1 Hi2.
  rewrite feed_straight;
    [|exact move_body_straight|st_simpl; int_lia
     |st_simpl; change (length (prog "->+<")) with 4%nat; lia].
  rewrite visit_seq_move by done. res_simpl.
  unfold log_symbols. st_simpl.
  change (logged (prog "->+<")) with (prog "->+<").
  by change (Z.of_nat (length (prog "->+<"))) with 4.
Qed.

(** X13. The loop [[->+<]], fed as fresh symbols to any status outside
    skipping whose instruction pointer is the last log index, with the
    current cell holding [v] and the next cell a byte [u], and fuel from
    [v + 5] on: the run finishes with the current cell at 0 and the next
    cell at [(u + v) mod 256]; the pointer is back where it was, the other
    cells, the input and the output are untouched, and the six symbols are
    logged. The first round is run from the input and the other [v - 1]
    rounds are run from the log, with the same effect. The loop stack is as
    before, except for [v = 1], where the index of the loop start stays on
    it. *)
Theorem move_loop_adds_into_next_cell :
  ∀ (v fuel : nat) (w : world) (s : brainfuck_vm_status),
    jump_loop s = 0 →
    instruction_ptr_current s = Z.of_nat (length (instruction s)) - 1 →
    cell (tape s) (tape_ptr s) = Z.of_nat v →
    Z.of_nat v < 256 →
    0 ≤ cell (tape s) (tape_ptr s + 1) < 256 →
    INT_MIN ≤ tape_ptr s → tape_ptr s + 1 ≤ INT_MAX →
    Z.of_nat (length (instruction s)) + 5 ≤ INT_MAX →
    (v + 5 ≤ fuel)%nat →
    ∃ w' s',
      feed fuel w s (prog "[->+<]") = Done (w', s') ∧
      tape_ptr s' = tape_ptr s ∧
      cell (tape s') (tape_ptr s) = 0 ∧
      cell (tape s') (tape_ptr s + 1) =
        (cell (tape s) (tape_ptr s + 1) + Z.of_nat v) mod 256 ∧
      (∀ q, q ≠ tape_ptr s → q ≠ tape_ptr s + 1 →
            cell (tape s') q = cell (tape s) q) ∧
      stdout w' = stdout w ∧ stdin w' = stdin w ∧
      jump_loop s' = 0 ∧
      instruction s' = instruction s ++ prog "[->+<]" ∧
      instruction_ptr_current s' = instruction_ptr_current s + 6 ∧
      instruction_loop_ptr s' =
        (if decide (v = 1%nat)
         then (instruction_ptr_current s + 1) :: instruction_loop_ptr s
         else instruction_loop_ptr s).
Proof.
  intros v fuel w s Hj Hinv Hc Hv Hu Hp1 Hp2 Hmax Hfuel.
  destruct fuel as [|f]; [lia|].
  change (prog "[->+<]") with ("["%char :: prog "->+<" ++ ["]"%char]).
  destruct v as [|v].
  - (* the loop is skipped *)
    destruct (run_vm_loop_start_zero f w s Hj Hc)
      as (w1 & s1 & Hr1 & Hin1 & Hout1 & Hcell1 & Hp1' & Hk1 & Hj1 & Hl1 & Hip1);
      [int_lia|].
    destruct (feed_skip f (prog "->+<") 0 w1 s1)
      as (w2 & s2 & Hr2 & Hin2 & Hout2 & Hcell2 & Hp2' & Hk2 & Hj2 & Hl2 & Hip2);
      [done|lia
       |change (length (prog "->+<")) with 4%nat; int_lia
       |int_lia
       |change (length (prog "->+<")) with 4%nat; lia|].
    change (logged (prog "->+<")) with (prog "->+<") in Hl2, Hip2.
    change (Z.of_nat (length (prog "->+<"))) with 4 in Hip2.
    destruct (run_vm_skip_step f w2 s2 "]"%char)
      as (w3 & s3 & Hr3 & Hin3 & Hout3 & Hcell3 & Hp3 & Hk3 & Hj3 & Hl3 & Hip3);
      [lia|int_lia|int_lia|].
    change (bracket_delta "]"%char) with (-1) in Hj3.
    change (logged ["]"%char]) with ["]"%char] in Hl3, Hip3.
    cbn [length] in Hip3.
    exists w3, s3. cbn [feed]. rewrite Hr1. res_simpl.
    rewrite feed_app, Hr2. res_simpl. cbn [feed]. rewrite Hr3. res_simpl.
    split; [done|]. split; [congruence|].
    split; [by rewrite Hcell3, Hcell2, Hcell1|].
    split.
    { rewrite Hcell3, Hcell2, Hcell1, Z.add_0_r, Z.mod_small; [done|lia]. }
    split; [intros q _ _; by rewrite Hcell3, Hcell2, Hcell1|].
    split; [congruence|]. split; [congruence|].
    split; [lia|].
    split; [by rewrite Hl3, Hl2, Hl1, <- !app_assoc|].
    split; [lia|].
    rewrite decide_False by discriminate. congruence.
  - (* one round from the input, then [v] rounds from the log *)
    destruct s as [t p l i stk j]. st_simpl. subst i j.
    cbn [feed].
    rewrite run_vm_loop_start_nonzero by (int_lia || lia). res_simpl.
    rewrite feed_app, feed_move_body by (int_lia || lia). res_simpl.
    set (t2 := <[p + 1 := to_char (cell t (p + 1) + 1)]>
                 (<[p := to_char (cell t p - 1)]> t)).
    assert (Hc2 : cell t2 p = Z.of_nat v).
    { unfold t2. rewrite cell_insert_ne by lia.
      rewrite cell_insert_eq, Hc. unfold to_char.
      rewrite Z.mod_small by lia. lia. }
    assert (Hu2 : cell t2 (p + 1) = (cell t (p + 1) + 1) mod 256).
    { unfold t2. by rewrite cell_insert_eq. }
    assert (Hq2 : ∀ q, q ≠ p → q ≠ p + 1 → cell t2 q = cell t q).
    { intros q Hn1 Hn2. unfold t2.
      rewrite cell_insert_ne by lia. by rewrite cell_insert_ne by lia. }
    cbn [feed].
    destruct v as [|v].
    + rewrite run_vm_loop_end_zero by (int_lia || done). res_simpl.
      eexists _, _. split; [reflexivity|]. st_simpl.
      split; [done|]. split; [by rewrite tape_ref_cell|].
      split; [by rewrite tape_ref_cell, Hu2|].
      split; [intros q Hn1 Hn2; rewrite tape_ref_cell; by apply Hq2|].
      split; [done|]. split; [done|]. split; [done|].
      split; [by rewrite <- !app_assoc|]. split; [lia|done].
    + rewrite run_vm_loop_end_enter by (int_lia || lia).
      destruct f as [|fr]; [lia|].
      rewrite <- (app_assoc (l ++ ["["%char]) (prog "->+<") ["]"%char]).
      destruct (loop_while_move fr (S v) (S fr)
                  (add_calls [("]"%char, false)]
                     (add_calls (fresh_calls (prog "->+<"))
                        (add_calls [("["%char, false)] w)))
                  t2 p (l ++ ["["%char])
                  (Z.of_nat (length l) - 1 + 1)
                  (Z.of_nat (length l) - 1 + 1 + 4 + 1) stk ["]"%char])
        as (t' & Hw & Hc' & Hu' & Hq');
        [lia|done|lia| |done|done| |lia|int_lia|].
      { rewrite Hu2. apply Z.mod_pos_bound. lia. }
      { rewrite length_app. cbn [length]. lia. }
      rewrite Hw. res_simpl. st_simpl.
      change (stack_pop (Z.of_nat (length l) - 1 + 1 :: stk)) with (Done stk).
      res_simpl. eexists _, _. split; [reflexivity|]. st_simpl.
      split; [done|]. split; [done|].
      split.
      { rewrite Hu', Hu2, Zplus_mod_idemp_l. f_equal. lia. }
      split; [intros q Hn1 Hn2; rewrite Hq' by done; by apply Hq2|].
      split; [done|]. split; [done|]. split; [done|].
      split; [by rewrite <- !app_assoc|]. split; [lia|].
      by rewrite decide_False by lia.
Qed.

Lemma move_loop_adds_into_next_cell_witness :
  ∃ w' s',
    feed 14 (mk_world [] [] []) move_example_status (prog "[->+<]")
      = Done (w', s') ∧
    tape_ptr s' = tape_ptr move_example_status ∧
    cell (tape s') (tape_ptr move_example_status) = 0 ∧
    cell (tape s') (tape_ptr move_example_status + 1) =
      (cell (tape move_example_status) (tape_ptr move_example_status + 1)
       + Z.of_nat 9) mod 256 ∧
    (∀ q, q ≠ tape_ptr move_example_status →
          q ≠ tape_ptr move_example_status + 1 →
          cell (tape s') q = cell (tape move_example_status) q) ∧
    stdout w' = stdout (mk_world [] [] []) ∧
    stdin w' = stdin (mk_world [] [] []) ∧
    jump_loop s' = 0 ∧
    instruction s' = instruction move_example_status ++ prog "[->+<]" ∧
    instruction_ptr_current s'
      = instruction_ptr_current move_example_status + 6 ∧
    instruction_loop_ptr s' =
      (if decide (9%nat = 1%nat)
       then (instruction_ptr_current move_example_status + 1)
              :: instruction_loop_ptr move_example_status
       else instruction_loop_ptr move_example_status).
Proof.
  apply (move_loop_adds_into_next_cell 9 14 (mk_world [] [] [])
           move_example_status).
  - reflexivity.
  - reflexivity.
  - reflexivity.
  - simpl. lia.
  - vm_compute. split; [discriminate|reflexivity].
  - unfold INT_MIN. simpl. lia.
  - unfold INT_MAX. simpl. lia.
  - unfold INT_MAX. simpl. lia.
  - lia.
Defined.

(** * Code without brackets, fresh and replayed *)

(** X10. A program none of whose symbols is a bracket, fed as fresh
    symbols, is run by decoding: the result is that of the visitor applied
    in order to the decoded operations (which fail only on overflow of the
    cell pointer), with the operator characters appended to the log, the
    instruction pointer advanced by their number and one fresh call recorded
    per symbol. One unit of fuel per call is enough: such a program cannot
    loop. *)
Theorem bracket_free_program_is_decode_then_visit :
  ∀ (f : nat) (p : list ascii) (w : world) (s : brainfuck_vm_status),
    Forall (λ op, straight op = true) (decode p) →
    INT_MIN - 1 ≤ instruction_ptr_current s →
    instruction_ptr_current s + Z.of_nat (length p) ≤ INT_MAX →
    feed (S f) w s p =
      '(w', s') ← visit_seq (run_vm f) f (decode p) w s;
      mret (add_calls (fresh_calls p) w', log_symbols p s s').
Proof. intros f p w s. apply feed_straight. Qed.

Lemma bracket_free_program_is_decode_then_visit_witness :
  feed 1 (mk_world (prog "A") [] []) init_status (prog "+ >,.<") =
    '(w', s') ← visit_seq (run_vm 0) 0 (decode (prog "+ >,.<"))
                  (mk_world (prog "A") [] []) init_status;
    mret (add_calls (fresh_calls (prog "+ >,.<")) w',
          log_symbols (prog "+ >,.<") init_status s').
Proof.
  apply (bracket_free_program_is_decode_then_visit 0%nat (prog "+ >,.<")
           (mk_world (prog "A") [] []) init_status).
  - change (decode (prog "+ >,.<"))
      with [increment_value_op; monostate; increment_ptr_op; read_op;
            print_op; decrement_ptr_op].
    repeat (apply Forall_cons_2; [reflexivity|]). apply Forall_nil_2.
  - unfold INT_MIN. simpl. lia.
  - unfold INT_MAX. simpl. lia.
Defined.

(** X14. Replaying from the log a stretch of symbols none of which is a
    bracket does what visiting their decoded operations does: the inner
    [while] of the loop end, started with the instruction pointer at the
    first symbol of the stretch and [current] right behind its last,
    returns the visitor's result with the log as it was, the instruction
    pointer at [current] and one replay call recorded per symbol. So a
    replayed round acts on tape, pointer, input and output exactly as the
    same symbols do when they are fed fresh (X10). *)
Theorem replay_of_bracket_free_body_is_visit :
  ∀ (fr fuel : nat) (body pre post : list ascii) (w : world)
    (s : brainfuck_vm_status),
    Forall (λ op, straight op = true) (decode body) →
    instruction s = pre ++ body ++ post →
    instruction_ptr_current s = Z.of_nat (length pre) →
    Z.of_nat (length pre) + Z.of_nat (length body) ≤ INT_MAX →
    (length body + 1 ≤ fuel)%nat →
    replay_body (run_vm (S fr)) fuel
                (Z.of_nat (length pre) + Z.of_nat (length body)) w s =
      '(w', s') ← visit_seq (run_vm fr) fr (decode body) w s;
      mret (add_calls (replay_calls body) w',
            set_instruction_ptr_current
              (Z.of_nat (length pre) + Z.of_nat (length body))
              (set_instruction (instruction s) s')).
Proof.
  intros fr fuel body pre post w s Hs Hl Hi Hmax Hf.
  by apply (replay_body_straight fr body fuel w s pre post).
Qed.

Lemma replay_of_bracket_free_body_is_visit_witness :
  replay_body (run_vm 1) 5
              (Z.of_nat (length (prog "++[")) + Z.of_nat (length (prog "->+<")))
              (mk_world [] [] []) straight_example_status =
    '(w', s') ← visit_seq (run_vm 0) 0 (decode (prog "->+<"))
                  (mk_world [] [] []) straight_example_status;
    mret (add_calls (replay_calls (prog "->+<")) w',
          set_instruction_ptr_current
            (Z.of_nat (length (prog "++[")) + Z.of_nat (length (prog "->+<")))
            (set_instruction (instruction straight_example_status) s')).
Proof.
  apply (replay_of_bracket_free_body_is_visit 0%nat 5%nat (prog "->+<")
           (prog "++[") [] (mk_world [] [] []) straight_example_status).
  - exact move_body_straight.
  - reflexivity.
  - reflexivity.
  - unfold INT_MAX. simpl. lia.
  - simpl. lia.
Defined.
